(** * graph-viewer: circular gallery, complete connection graph, path states
      and responsive configuration.

    A shallow embedding of the JavaScript modules
    - [modules/graph-manager.js]   (class GraphManager),
    - [utils/responsive-config.js] (BREAKPOINTS, class ResponsiveConfigManager),
    - [utils/math-utils.js]        (class MathUtils),
    - [modules/path-manager.js]    (class PathManager),
    followed by the properties proved about them.

    Conventions.  Integer-valued JavaScript numbers (indices, item counts,
    breakpoint metrics, matrix entries, path-state codes) are [Z] or [nat];
    coordinates computed with [Math.cos], [Math.sin] and [Math.sqrt] are real
    numbers [R]; the viewport width is a rational [Q].  Mutable objects are
    passed explicitly: every method takes the object and returns the updated
    one.  A [for (let i = lo; i < hi; i++)] loop is [for_range lo hi]. *)

From Stdlib Require Import ZArith List Lia Reals QArith Lra.
From stdpp Require Import gmap strings list.

#[local] Set Warnings "-clear-no-such-hyp".

Open Scope Z_scope.

(** ** Loops *)

(** [for (let i = lo; i < hi; i++) s = body(i, s)] *)
Definition for_range {S : Type} (lo hi : nat) (body : nat → S → S) (s : S) : S :=
  foldl (λ acc i, body i acc) s (seq lo (hi - lo)).

(** ** modules/graph-manager.js *)

Module GraphManager.

(** An entry of [getConnections()]: [{ from: i, to: j }]. *)
Record Connection := { from : Z; to : Z }.

Record t := {
  imageCount : nat;
  adjacencyMatrix : list (list Z)
}.

(** [Array(n).fill(null).map(() => Array(n).fill(0))] *)
Definition initializeMatrix (n : nat) : list (list Z) :=
  replicate n (replicate n 0).

(** [m[i][j] = v], for a row [i] and a column [j] that exist.  Every write of
    the class is bounded by the size of the matrix ([isValidEdge], or the
    loop bound [imageCount]), and the matrix is square ([square] below is
    preserved by every method), so no write lands out of range. *)
Definition set_entry (m : list (list Z)) (i j : nat) (v : Z) : list (list Z) :=
  alter (λ row, <[j := v]> row) i m.

(** [m[i][j]], [None] standing for [undefined]. *)
Definition entry (m : list (list Z)) (i j : nat) : option Z :=
  m !! i ≫= λ row, row !! j.

#[global] Arguments set_entry : simpl never.
#[global] Arguments entry : simpl never.

Definition isValidEdge (g : t) (i j : Z) : bool :=
  negb (i =? j)
  && (0 <=? i) && (0 <=? j)
  && (i <? Z.of_nat (length (adjacencyMatrix g)))
  && (j <? Z.of_nat (length (adjacencyMatrix g))).

Definition addEdge (g : t) (i j : Z) : t :=
  if isValidEdge g i j then
    let m1 := set_entry (adjacencyMatrix g) (Z.to_nat i) (Z.to_nat j) 1 in
    let m2 := set_entry m1 (Z.to_nat j) (Z.to_nat i) 1 in
    {| imageCount := imageCount g; adjacencyMatrix := m2 |}
  else g.

Definition removeEdge (g : t) (i j : Z) : t :=
  if isValidEdge g i j then
    let m1 := set_entry (adjacencyMatrix g) (Z.to_nat i) (Z.to_nat j) 0 in
    let m2 := set_entry m1 (Z.to_nat j) (Z.to_nat i) 0 in
    {| imageCount := imageCount g; adjacencyMatrix := m2 |}
  else g.

Definition setupCompleteGraph (g : t) : t :=
  let g1 :=
    for_range 0 (imageCount g)
      (λ i g, {| imageCount := imageCount g;
                 adjacencyMatrix := set_entry (adjacencyMatrix g) i i 0 |}) g in
  for_range 0 (imageCount g1)
    (λ i g,
       for_range (i + 1) (imageCount g)
         (λ j g, addEdge g (Z.of_nat i) (Z.of_nat j)) g) g1.

(** The inner loop of [getConnections], over one row. *)
Definition row_connections (row : list Z) (i : nat) (acc : list Connection)
  : list Connection :=
  for_range (i + 1) (length row)
    (λ j acc,
       match row !! j with
       | Some 1 => acc ++ [ {| from := Z.of_nat i; to := Z.of_nat j |} ]
       | _ => acc
       end) acc.

Definition getConnections (g : t) : list Connection :=
  for_range 0 (length (adjacencyMatrix g))
    (λ i acc,
       match adjacencyMatrix g !! i with
       | Some row => row_connections row i acc
       | None => acc
       end) [].

Definition areConnected (g : t) (i j : Z) : bool :=
  if negb (isValidEdge g i j) then false
  else match entry (adjacencyMatrix g) (Z.to_nat i) (Z.to_nat j) with
       | Some 1 => true
       | _ => false
       end.

(** [imageCount = n; adjacencyMatrix = initializeMatrix(); setupCompleteGraph()],
    the sequence run by the constructor and by [updateItemCount]. *)
Definition build (n : nat) : t :=
  setupCompleteGraph {| imageCount := n; adjacencyMatrix := initializeMatrix n |}.

(** [new GraphManager(imageCount)], where [imageCount || GALLERY_CONFIG.itemCount]
    falls back to the configured count when the argument is [0]. *)
Definition new (imageCount configItemCount : nat) : t :=
  build (if Nat.eqb imageCount 0 then configItemCount else imageCount).

Definition updateItemCount (g : t) (newCount : nat) : t :=
  if Nat.eqb newCount (imageCount g) then g else build newCount.

(** The matrix is [n] rows of [n] entries. *)
Definition square (n : nat) (m : list (list Z)) : Prop :=
  length m = n ∧ Forall (λ row, length row = n) m.

(** [getNeighbors(nodeIndex)]: nothing for a node outside [[0, imageCount)];
    otherwise the columns holding [1] in the node's row, in ascending order. *)
Definition getNeighbors (g : t) (nodeIndex : Z) : list Z :=
  if (nodeIndex <? 0) || (Z.of_nat (imageCount g) <=? nodeIndex) then []
  else
    for_range 0 (imageCount g)
      (λ i neighbors,
         match entry (adjacencyMatrix g) (Z.to_nat nodeIndex) i with
         | Some 1 => neighbors ++ [Z.of_nat i]
         | _ => neighbors
         end) [].

Definition getDegree (g : t) (nodeIndex : Z) : nat :=
  length (getNeighbors g nodeIndex).

(** A call that edits one edge. *)
Inductive EdgeCall :=
| AddEdge (i j : Z)
| RemoveEdge (i j : Z).

Definition edge_call (g : t) (c : EdgeCall) : t :=
  match c with
  | AddEdge i j => addEdge g i j
  | RemoveEdge i j => removeEdge g i j
  end.

(** The canonical enumeration [i < j < n], row by row. *)
Definition upper_pairs (n : nat) : list (nat * nat) :=
  seq 0 n ≫= λ i, (λ j, (i, j)) <$> seq (i + 1) (n - (i + 1)).

Definition connection_of (p : nat * nat) : Connection :=
  {| from := Z.of_nat p.1; to := Z.of_nat p.2 |}.

End GraphManager.

(** ** core/config.js: the object read as [GALLERY_CONFIG.current] *)

Module Config.

(** The layout snapshot computed by [ResponsiveConfigManager._calculateConfig]
    (the constant animation, colour, opacity and hover blocks are left out). *)
Record t := {
  radius : Z;
  centerX : Z;
  centerY : Z;
  itemSize : Z;
  itemCount : Z;
  containerWidth : Z;
  containerHeight : Z;
  breakpoint : string;
  strokeWidthNormal : Z;
  strokeWidthHover : Z;
  arcHeightRatio : Q
}.

End Config.

(** [PATH_STATES] *)
Module PATH_STATES.
Definition PINK_SOLID : Z := 0.
Definition GREEN_SOLID : Z := 1.
Definition TRANSPARENT : Z := 2.
End PATH_STATES.

(** ** utils/responsive-config.js *)

Module ResponsiveConfigManager.

Record Breakpoint := {
  name : string;
  min : option Z;
  max : option Z;
  container : Z;
  center : Z;
  radius : Z;
  itemSize : Z
}.

Definition DESKTOP : Breakpoint :=
  {| name := "desktop"; min := Some 769; max := None;
     container := 600; center := 300; radius := 250; itemSize := 100 |}.

Definition TABLET : Breakpoint :=
  {| name := "tablet"; min := Some 481; max := Some 768;
     container := 400; center := 200; radius := 150; itemSize := 80 |}.

Definition MOBILE : Breakpoint :=
  {| name := "mobile"; min := None; max := Some 480;
     container := 300; center := 150; radius := 100; itemSize := 60 |}.

Definition BREAKPOINTS : list Breakpoint := [DESKTOP; TABLET; MOBILE].

(** [width >= bound] and [width <= bound]; a comparison with a missing bound
    ([undefined]) is false. *)
Definition width_ge (width : Q) (bound : option Z) : bool :=
  match bound with
  | Some b => Qle_bool (inject_Z b) width
  | None => false
  end.

Definition width_le (width : Q) (bound : option Z) : bool :=
  match bound with
  | Some b => Qle_bool width (inject_Z b)
  | None => false
  end.

(** [getBreakpoint()], as a function of [window.innerWidth]. *)
Definition getBreakpoint (width : Q) : Breakpoint :=
  if width_ge width (min DESKTOP) then DESKTOP
  else if width_ge width (min TABLET) && width_le width (max TABLET) then TABLET
  else MOBILE.

(** The width range a tier declares: [min <= width] where it has a [min],
    [width <= max] where it has a [max]. *)
Definition in_declared_range (bp : Breakpoint) (width : Q) : Prop :=
  (∀ lo, min bp = Some lo → (inject_Z lo <= width)%Q)
  ∧ (∀ hi, max bp = Some hi → (width <= inject_Z hi)%Q).

(** [Math.round(a / b)] for positive [b]: the nearest integer, halves up. *)
Definition round_div (a b : Z) : Z := (2 * a + b) / (2 * b).

Definition _calculateConfig (bp : Breakpoint) (itemCount : Z) : Config.t :=
  {| Config.radius := radius bp;
     Config.centerX := center bp;
     Config.centerY := center bp;
     Config.itemSize := itemSize bp;
     Config.itemCount := itemCount;
     Config.containerWidth := container bp;
     Config.containerHeight := container bp;
     Config.breakpoint := name bp;
     Config.strokeWidthNormal := Z.max 3 (round_div (container bp) 120);
     Config.strokeWidthHover := Z.max 5 (round_div (container bp) 75);
     Config.arcHeightRatio := (3 # 10)%Q |}.

(** A registered callback, known by its identity only: a call to it is recorded
    in [notified]; what the callback then does is not part of this class. *)
Definition Callback := nat.

Record t := {
  _cache : gmap (string * Z) Config.t;
  _currentBreakpoint : option Breakpoint;
  _resizeCallbacks : list Callback;
  _debounceTimer : option nat;
  _isInitialized : bool
}.

(** The host: the window (its width, its [resize] listeners that this class
    installed, the millisecond clock and the pending [setTimeout] timers, each
    [(id, due)], every one of them running the debounced closure of
    [_setupResizeListener]), the class's static fields, and the calls made to
    subscribers so far, oldest first. *)
Record World := {
  innerWidth : Q;
  clock : nat;
  timers : list (nat * nat);
  nextTimerId : nat;
  resizeListeners : nat;
  rcm : t;
  notified : list (Callback * Breakpoint)
}.

Definition initial_rcm : t :=
  {| _cache := ∅; _currentBreakpoint := None; _resizeCallbacks := [];
     _debounceTimer := None; _isInitialized := false |}.

(** The page before the module is loaded, at a given window width. *)
Definition initial_world (width : Q) : World :=
  {| innerWidth := width; clock := 0; timers := []; nextTimerId := 1;
     resizeListeners := 0; rcm := initial_rcm; notified := [] |}.

Definition set_rcm (w : World) (m : t) : World :=
  {| innerWidth := innerWidth w; clock := clock w; timers := timers w;
     nextTimerId := nextTimerId w; resizeListeners := resizeListeners w;
     rcm := m; notified := notified w |}.

Definition clearCache (m : t) : t :=
  {| _cache := ∅; _currentBreakpoint := _currentBreakpoint m;
     _resizeCallbacks := _resizeCallbacks m; _debounceTimer := _debounceTimer m;
     _isInitialized := _isInitialized m |}.

Definition same_name (cur : option Breakpoint) (bp : Breakpoint) : bool :=
  match cur with
  | Some c => bool_decide (name c = name bp)
  | None => false
  end.

(** [getResponsiveConfig(itemCount)]: the configuration and the updated class. *)
Definition getResponsiveConfig (itemCount : Z) (w : World) : Config.t * World :=
  let breakpoint := getBreakpoint (innerWidth w) in
  let cacheKey := (name breakpoint, itemCount) in
  let m := rcm w in
  match _cache m !! cacheKey with
  | Some config =>
      if same_name (_currentBreakpoint m) breakpoint then (config, w)
      else
        let config := _calculateConfig breakpoint itemCount in
        (config,
         set_rcm w {| _cache := <[cacheKey := config]> (_cache m);
                      _currentBreakpoint := Some breakpoint;
                      _resizeCallbacks := _resizeCallbacks m;
                      _debounceTimer := _debounceTimer m;
                      _isInitialized := _isInitialized m |})
  | None =>
      let config := _calculateConfig breakpoint itemCount in
      (config,
       set_rcm w {| _cache := <[cacheKey := config]> (_cache m);
                    _currentBreakpoint := Some breakpoint;
                    _resizeCallbacks := _resizeCallbacks m;
                    _debounceTimer := _debounceTimer m;
                    _isInitialized := _isInitialized m |})
  end.

(** [_currentBreakpoint?.name || getBreakpoint().name] *)
Definition getCurrentBreakpointName (w : World) : string :=
  match _currentBreakpoint (rcm w) with
  | Some bp => if bool_decide (name bp = ""%string)
               then name (getBreakpoint (innerWidth w)) else name bp
  | None => name (getBreakpoint (innerWidth w))
  end.

Definition forceRecalculate (itemCount : Z) (w : World) : Config.t * World :=
  getResponsiveConfig itemCount (set_rcm w (clearCache (rcm w))).

Definition onResize (callback : Callback) (m : t) : t :=
  {| _cache := _cache m; _currentBreakpoint := _currentBreakpoint m;
     _resizeCallbacks := _resizeCallbacks m ++ [callback];
     _debounceTimer := _debounceTimer m; _isInitialized := _isInitialized m |}.

(** [splice(indexOf(callback), 1)]: the first occurrence goes. *)
Fixpoint remove_first (callback : Callback) (l : list Callback) : list Callback :=
  match l with
  | [] => []
  | c :: l' => if Nat.eqb c callback then l' else c :: remove_first callback l'
  end.

Definition offResize (callback : Callback) (m : t) : t :=
  {| _cache := _cache m; _currentBreakpoint := _currentBreakpoint m;
     _resizeCallbacks := remove_first callback (_resizeCallbacks m);
     _debounceTimer := _debounceTimer m; _isInitialized := _isInitialized m |}.

(** [clearTimeout(id)] *)
Definition clearTimeout (id : nat) (w : World) : World :=
  {| innerWidth := innerWidth w; clock := clock w;
     timers := filter (λ t, t.1 ≠ id) (timers w);
     nextTimerId := nextTimerId w; resizeListeners := resizeListeners w;
     rcm := rcm w; notified := notified w |}.

(** [setTimeout(closure, delay)]: the new timer's id and the updated host. *)
Definition setTimeout (delay : nat) (w : World) : nat * World :=
  (nextTimerId w,
   {| innerWidth := innerWidth w; clock := clock w;
      timers := timers w ++ [(nextTimerId w, (clock w + delay)%nat)];
      nextTimerId := S (nextTimerId w); resizeListeners := resizeListeners w;
      rcm := rcm w; notified := notified w |}).

(** The listener installed on [window] by [_setupResizeListener]. *)
Definition resize_listener (w : World) : World :=
  let w1 := match _debounceTimer (rcm w) with
            | Some id => clearTimeout id w
            | None => w
            end in
  let '(id, w2) := setTimeout 300 w1 in
  set_rcm w2 {| _cache := _cache (rcm w2);
                _currentBreakpoint := _currentBreakpoint (rcm w2);
                _resizeCallbacks := _resizeCallbacks (rcm w2);
                _debounceTimer := Some id;
                _isInitialized := _isInitialized (rcm w2) |}.

(** The closure handed to [setTimeout]: what runs when the debounce timer
    expires. *)
Definition debounced (w : World) : World :=
  let newBreakpoint := getBreakpoint (innerWidth w) in
  let m := rcm w in
  if same_name (_currentBreakpoint m) newBreakpoint then w
  else
    {| innerWidth := innerWidth w; clock := clock w; timers := timers w;
       nextTimerId := nextTimerId w; resizeListeners := resizeListeners w;
       rcm := {| _cache := ∅; _currentBreakpoint := Some newBreakpoint;
                 _resizeCallbacks := _resizeCallbacks m;
                 _debounceTimer := _debounceTimer m;
                 _isInitialized := _isInitialized m |};
       notified := notified w ++ ((λ callback, (callback, newBreakpoint))
                                   <$> _resizeCallbacks m) |}.

Definition init (w : World) : World :=
  if _isInitialized (rcm w) then w
  else
    let m := rcm w in
    {| innerWidth := innerWidth w; clock := clock w; timers := timers w;
       nextTimerId := nextTimerId w; resizeListeners := S (resizeListeners w);
       rcm := {| _cache := _cache m;
                 _currentBreakpoint := Some (getBreakpoint (innerWidth w));
                 _resizeCallbacks := _resizeCallbacks m;
                 _debounceTimer := _debounceTimer m;
                 _isInitialized := true |};
       notified := notified w |}.

Definition cleanup (w : World) : World :=
  let w1 := match _debounceTimer (rcm w) with
            | Some id => clearTimeout id w
            | None => w
            end in
  set_rcm w1 {| _cache := ∅; _currentBreakpoint := _currentBreakpoint (rcm w1);
                _resizeCallbacks := []; _debounceTimer := None;
                _isInitialized := false |}.

(** Time passes until [t]: every timer due by then expires, in the order the
    timers were set, and runs [debounced]. *)
Definition advance (t : nat) (w : World) : World :=
  let due := filter (λ tm, (tm.2 ≤ t)%nat) (timers w) in
  let w1 := {| innerWidth := innerWidth w; clock := Nat.max (clock w) t;
               timers := filter (λ tm, ¬ (tm.2 ≤ t)%nat) (timers w);
               nextTimerId := nextTimerId w; resizeListeners := resizeListeners w;
               rcm := rcm w; notified := notified w |} in
  foldl (λ w _, debounced w) w1 due.

(** What can happen to the page. *)
Inductive Event :=
| Load                      (* the module is loaded: [init()] *)
| Resize (width : Q)        (* the window takes a new width and fires [resize] *)
| Subscribe (c : Callback)  (* [onResize(c)] *)
| Unsubscribe (c : Callback)(* [offResize(c)] *)
| Query (itemCount : Z)     (* [getResponsiveConfig(itemCount)], e.g. through [GALLERY_CONFIG.current] *)
| Idle.                     (* nothing but the passage of time *)

Definition handle (e : Event) (w : World) : World :=
  match e with
  | Load => init w
  | Resize width =>
      let w1 := {| innerWidth := width; clock := clock w; timers := timers w;
                   nextTimerId := nextTimerId w; resizeListeners := resizeListeners w;
                   rcm := rcm w; notified := notified w |} in
      for_range 0 (resizeListeners w1) (λ _ w, resize_listener w) w1
  | Subscribe c => set_rcm w (onResize c (rcm w))
  | Unsubscribe c => set_rcm w (offResize c (rcm w))
  | Query itemCount => (getResponsiveConfig itemCount w).2
  | Idle => w
  end.

(** An event stamped with the time (in milliseconds) at which it happens. *)
Definition step (w : World) (te : nat * Event) : World :=
  handle te.2 (advance te.1 w).

Definition run (trace : list (nat * Event)) (w : World) : World :=
  foldl step w trace.

(** A page loaded at 1024 pixels with two subscribers. *)
Definition desktop_page : World :=
  run [(0%nat, Load); (0%nat, Subscribe 1%nat); (0%nat, Subscribe 2%nat)]
      (initial_world (inject_Z 1024)).

(** Resize events [(time, width)] that fall in one debounce window opened at
    time [t]: each comes less than 300 ms after the one before. *)
Fixpoint coalesced (t : nat) (rs : list (nat * Q)) : Prop :=
  match rs with
  | [] => True
  | r :: rs' => (t ≤ r.1 < t + 300)%nat ∧ coalesced r.1 rs'
  end.

Definition resize_events (rs : list (nat * Q)) : list (nat * Event) :=
  (λ r, (r.1, Resize r.2)) <$> rs.

(** The debounce timer is pending, due at [due], and is the one the class
    remembers. *)
Definition armed (w : World) (due : nat) : Prop :=
  ∃ id, timers w = [(id, due)] ∧ _debounceTimer (rcm w) = Some id.

(** Every cached configuration is the one [_calculateConfig] gives for the
    tier and the item count of its key. *)
Definition cache_fresh (m : t) : Prop :=
  ∀ k config, _cache m !! k = Some config →
    ∃ bp, bp ∈ BREAKPOINTS ∧ k.1 = name bp ∧ config = _calculateConfig bp k.2.

(** The resize listener is installed once the class is initialised, and only
    once. *)
Definition one_listener (w : World) : Prop :=
  resizeListeners w = (if _isInitialized (rcm w) then 1 else 0)%nat.

(** At most one timer is pending: the one remembered in [_debounceTimer], due
    within 300 ms. *)
Definition one_timer (w : World) : Prop :=
  timers w = []
  ∨ ∃ id due, timers w = [(id, due)] ∧ _debounceTimer (rcm w) = Some id
              ∧ (clock w < due ≤ clock w + 300)%nat.

Definition page_invariant (w : World) : Prop :=
  cache_fresh (rcm w) ∧ one_listener w ∧ one_timer w.

(** Once initialised, the class remembers a breakpoint. *)
Definition remembers (w : World) : Prop :=
  _isInitialized (rcm w) = true → is_Some (_currentBreakpoint (rcm w)).

(** A subscription event. *)
Definition is_subscribe (e : Event) : bool :=
  match e with Subscribe _ => true | _ => false end.

End ResponsiveConfigManager.

(** ** utils/math-utils.js *)

(** A position object [{ x, y }]. *)
Module Point.
Record t := { x : R; y : R }.
End Point.

Module MathUtils.

(** The key summarising the configuration a cache was filled under:
    [`${centerX}_${centerY}_${radius}_${itemSize}`]. *)
Definition configKey (config : Config.t) : Z * Z * Z * Z :=
  (Config.centerX config, Config.centerY config, Config.radius config,
   Config.itemSize config).

(** The static fields [_positionCache] (keys [`pos_${index}_${itemCount}`] and
    [`elem_${index}_${itemCount}`]) and [_lastConfig] ([None] for [null]). *)
Record t := {
  _positionCache : gmap (string * Z * Z) Point.t;
  _lastConfig : option (Z * Z * Z * Z)
}.

(** The class as the module is loaded. *)
Definition initial : t := {| _positionCache := ∅; _lastConfig := None |}.

(** Every method reads [GALLERY_CONFIG.current] when it is called; that value
    is the parameter [config]. *)
Definition _clearCacheIfNeeded (config : Config.t) (st : t) : t :=
  if bool_decide (_lastConfig st = Some (configKey config)) then st
  else {| _positionCache := ∅; _lastConfig := Some (configKey config) |}.

(** [totalItems || config.itemCount]: a missing or zero argument gives way to
    the configured count. *)
Definition or_itemCount (totalItems : option Z) (config : Config.t) : Z :=
  match totalItems with
  | Some n => if n =? 0 then Config.itemCount config else n
  | None => Config.itemCount config
  end.

(** [getItemPosition(index, totalItems)].  Coordinates are real numbers, and
    the quotient [index / itemCount] is the total one of the reals: for an
    effective item count of 0 the code computes [NaN], so what is proved of the
    value returned is proved for a count that is not 0. *)
Definition getItemPosition (config : Config.t) (index : Z) (totalItems : option Z)
    (st : t) : Point.t * t :=
  let st := _clearCacheIfNeeded config st in
  let itemCount := or_itemCount totalItems config in
  let cacheKey := ("pos"%string, index, itemCount) in
  match _positionCache st !! cacheKey with
  | Some position => (position, st)
  | None =>
      let angle := (IZR index / IZR itemCount * PI * 2)%R in
      let position :=
        {| Point.x := (IZR (Config.centerX config)
                       + IZR (Config.radius config) * cos angle)%R;
           Point.y := (IZR (Config.centerY config)
                       + IZR (Config.radius config) * sin angle)%R |} in
      (position,
       {| _positionCache := <[cacheKey := position]> (_positionCache st);
          _lastConfig := _lastConfig st |})
  end.

Definition getItemElementPosition (config : Config.t) (index : Z)
    (totalItems : option Z) (st : t) : Point.t * t :=
  let st := _clearCacheIfNeeded config st in
  let itemCount := or_itemCount totalItems config in
  let cacheKey := ("elem"%string, index, itemCount) in
  match _positionCache st !! cacheKey with
  | Some position => (position, st)
  | None =>
      let '(centerPos, st) := getItemPosition config index (Some itemCount) st in
      let offset := (IZR (Config.itemSize config) / 2)%R in
      let position :=
        {| Point.x := (Point.x centerPos - offset)%R;
           Point.y := (Point.y centerPos - offset)%R |} in
      (position,
       {| _positionCache := <[cacheKey := position]> (_positionCache st);
          _lastConfig := _lastConfig st |})
  end.

(** [itemCount % 2 === 0 && diff === itemCount / 2].  The quotient is only
    compared when [itemCount] is even, where it is exact. *)
Definition isDiagonalPair (config : Config.t) (index1 index2 : Z)
    (totalItems : option Z) : bool :=
  let itemCount := or_itemCount totalItems config in
  let diff := Z.abs (index1 - index2) in
  (Z.rem itemCount 2 =? 0) && (diff =? Z.quot itemCount 2).

Definition getMidpoint (point1 point2 : Point.t) : Point.t :=
  {| Point.x := ((Point.x point1 + Point.x point2) / 2)%R;
     Point.y := ((Point.y point1 + Point.y point2) / 2)%R |}.

(** A quotient by a computed divisor; [None] when the divisor is zero. *)
Definition divide (a b : R) : option R :=
  if Req_dec_T b 0 then None else Some (a / b)%R.

(** [normalizeVector(vector)].  The result is [None] if a division by zero
    was evaluated. *)
Definition normalizeVector (vector : Point.t) : option Point.t :=
  let length := sqrt (Point.x vector * Point.x vector
                      + Point.y vector * Point.y vector)%R in
  if Req_dec_T length 0 then Some {| Point.x := 0%R; Point.y := 0%R |}
  else
    nx ← divide (Point.x vector) length;
    ny ← divide (Point.y vector) length;
    Some {| Point.x := nx; Point.y := ny |}.

Definition getArcControlPoint (config : Config.t) (point1 point2 : Point.t)
    (heightRatio : option R) : option Point.t :=
  let ratio := match heightRatio with
               | Some r => r
               | None => Q2R (Config.arcHeightRatio config)
               end in
  let midpoint := getMidpoint point1 point2 in
  let centerVector :=
    {| Point.x := (IZR (Config.centerX config) - Point.x midpoint)%R;
       Point.y := (IZR (Config.centerY config) - Point.y midpoint)%R |} in
  normalizedVector ← normalizeVector centerVector;
  let arcHeight := (IZR (Config.radius config) * ratio)%R in
  Some {| Point.x := (Point.x midpoint + Point.x normalizedVector * arcHeight)%R;
          Point.y := (Point.y midpoint + Point.y normalizedVector * arcHeight)%R |}.

Definition clearCache (st : t) : t := initial.

Definition getDistance (point1 point2 : Point.t) : R :=
  let dx := (Point.x point2 - Point.x point1)%R in
  let dy := (Point.y point2 - Point.y point1)%R in
  sqrt (dx * dx + dy * dy).

(** [Math.min(Math.max(value, min), max)] *)
Definition clamp (value min max : R) : R := Rmin (Rmax value min) max.

Definition precomputePositions (config : Config.t) (totalItems : option Z) (st : t) : t :=
  let itemCount := or_itemCount totalItems config in
  for_range 0 (Z.to_nat itemCount)
    (λ i st,
       let st := (getItemPosition config (Z.of_nat i) (Some itemCount) st).2 in
       (getItemElementPosition config (Z.of_nat i) (Some itemCount) st).2) st.

(** *** Vocabulary of the specification *)

(** The point at angle [theta] on the configured circle:
    [center + radius (cos theta, sin theta)]. *)
Definition circle_point (config : Config.t) (theta : R) : Point.t :=
  {| Point.x := (IZR (Config.centerX config) + IZR (Config.radius config) * cos theta)%R;
     Point.y := (IZR (Config.centerY config) + IZR (Config.radius config) * sin theta)%R |}.

(** [theta = 2 pi index / totalItems] *)
Definition item_angle (index totalItems : Z) : R :=
  (2 * PI * IZR index / IZR totalItems)%R.

(** The anchor of an item: its circle position minus half the item size. *)
Definition anchor_point (config : Config.t) (theta : R) : Point.t :=
  {| Point.x := (Point.x (circle_point config theta) - IZR (Config.itemSize config) / 2)%R;
     Point.y := (Point.y (circle_point config theta) - IZR (Config.itemSize config) / 2)%R |}.

(** What a call either does: return a value or throw. *)
Inductive Outcome (A : Type) :=
| Returns (value : A)
| Throws (error : string).
Arguments Returns {A} value.
Arguments Throws {A} error.

(** The outcome of the call [MathUtils.getItemPosition(index, totalItems)]:
    the method has no [throw] and calls nothing that throws. *)
Definition getItemPosition_call (config : Config.t) (index : Z)
    (totalItems : option Z) (st : t) : Outcome Point.t :=
  Returns (getItemPosition config index totalItems st).1.

(** A position query. *)
Inductive Call :=
| GetItemPosition (index : Z) (totalItems : option Z)
| GetItemElementPosition (index : Z) (totalItems : option Z)
| PrecomputePositions (totalItems : option Z)
| ClearCache.

(** One call under the configuration active when it is made: what it returns
    (if it returns a position) and the class afterwards. *)
Definition call (config : Config.t) (c : Call) (st : t) : option Point.t * t :=
  match c with
  | GetItemPosition index totalItems =>
      let '(p, st) := getItemPosition config index totalItems st in (Some p, st)
  | GetItemElementPosition index totalItems =>
      let '(p, st) := getItemElementPosition config index totalItems st in (Some p, st)
  | PrecomputePositions totalItems => (None, precomputePositions config totalItems st)
  | ClearCache => (None, clearCache st)
  end.

(** A sequence of calls, each under its own active configuration. *)
Fixpoint calls (cs : list (Config.t * Call)) (st : t) : list (option Point.t) * t :=
  match cs with
  | [] => ([], st)
  | (config, c) :: cs' =>
      let '(r, st) := call config c st in
      let '(rs, st) := calls cs' st in
      (r :: rs, st)
  end.

(** The position formula recomputed under [config], cache aside. *)
Definition recompute (config : Config.t) (c : Call) : option Point.t :=
  match c with
  | GetItemPosition index totalItems =>
      Some (circle_point config (item_angle index (or_itemCount totalItems config)))
  | GetItemElementPosition index totalItems =>
      Some (anchor_point config (item_angle index (or_itemCount totalItems config)))
  | PrecomputePositions _ | ClearCache => None
  end.

(** Every cached position is the one the formula gives under any
    configuration with the remembered key; with no key remembered the cache is
    empty. *)
Definition coherent (st : t) : Prop :=
  match _lastConfig st with
  | None => _positionCache st = ∅
  | Some key =>
      ∀ config kind index n p,
        configKey config = key →
        _positionCache st !! (kind, index, n) = Some p →
        (kind = "pos"%string ∧ p = circle_point config (item_angle index n))
        ∨ (kind = "elem"%string ∧ p = anchor_point config (item_angle index n))
  end.

End MathUtils.

(** ** modules/path-manager.js *)

Module PathManager.

(** The [d] attribute of a path: [`M x1 y1 L x2 y2`] or
    [`M x1 y1 Q cx cy x2 y2`].  A control point [None] is one whose
    coordinates came out of a division by zero. *)
Inductive PathData :=
| LinearPath (pos1 pos2 : Point.t)
| ArcPath (pos1 : Point.t) (controlPoint : option Point.t) (pos2 : Point.t).

Definition is_linear (pathData : PathData) : bool :=
  match pathData with
  | LinearPath _ _ => true
  | ArcPath _ _ _ => false
  end.

(** An SVG [path] element.  [id] is the identity of the object returned by
    [document.createElementNS]: two elements are [===] when they have the same
    [id]. *)
Record PathElement := {
  id : nat;
  d : PathData;
  data_from : Z;
  data_to : Z
}.

Record LineData := {
  element : PathElement;
  from : Z;
  to : Z;
  state : Z
}.

(** [connectionSvg] is the list of children of the SVG element, [None] when
    the page has no such element. *)
Record t := {
  connectionSvg : option (list PathElement);
  connectionLines : list LineData;
  isEnabled : bool
}.

(** The path manager together with what its methods reach: the static cache of
    [MathUtils] and the document, of which [created] counts the elements
    created so far. *)
Record World := {
  math : MathUtils.t;
  created : nat;
  manager : t
}.

(** [new PathManager(connectionSvg)] *)
Definition new (connectionSvg : option (list PathElement)) : t :=
  {| connectionSvg := connectionSvg; connectionLines := [];
     isEnabled := bool_decide (is_Some connectionSvg) |}.

Definition start (connectionSvg : option (list PathElement)) (m : MathUtils.t) : World :=
  {| math := m; created := 0; manager := new connectionSvg |}.

Definition set_state (lineData : LineData) (s : Z) : LineData :=
  {| element := element lineData; from := from lineData; to := to lineData;
     state := s |}.

Definition createLinearPath (pos1 pos2 : Point.t) : PathData :=
  LinearPath pos1 pos2.

Definition createArcPath (config : Config.t) (pos1 pos2 : Point.t) : PathData :=
  ArcPath pos1
    (MathUtils.getArcControlPoint config pos1 pos2
       (Some (Q2R (Config.arcHeightRatio config))))
    pos2.

Definition createSingleLine (config : Config.t) (index1 index2 : Z) (w : World)
    : World :=
  if negb (isEnabled (manager w)) then w
  else match connectionSvg (manager w) with
  | None => w
  | Some children =>
      let itemCount := Config.itemCount config in
      let '(pos1, m1) := MathUtils.getItemPosition config index1 (Some itemCount) (math w) in
      let '(pos2, m2) := MathUtils.getItemPosition config index2 (Some itemCount) m1 in
      let pathData :=
        if MathUtils.isDiagonalPair config index1 index2 (Some itemCount)
        then createLinearPath pos1 pos2
        else createArcPath config pos1 pos2 in
      let pathElement :=
        {| id := created w; d := pathData;
           data_from := index1; data_to := index2 |} in
      let lineData :=
        {| element := pathElement; from := index1; to := index2;
           state := PATH_STATES.TRANSPARENT |} in
      {| math := m2; created := S (created w);
         manager := {| connectionSvg := Some (children ++ [pathElement]);
                       connectionLines := connectionLines (manager w) ++ [lineData];
                       isEnabled := isEnabled (manager w) |} |}
  end.

Definition createConnectionLines (config : Config.t)
    (connections : list GraphManager.Connection) (w : World) : World :=
  if negb (isEnabled (manager w)) then w
  else match connections with
  | [] => w
  | _ =>
      foldl (λ w connection,
               createSingleLine config (GraphManager.from connection)
                 (GraphManager.to connection) w)
            w connections
  end.

(** Every line's element is taken out of its parent; the list is emptied. *)
Definition clearConnections (m : t) : t :=
  {| connectionSvg :=
       filter (λ e, id e ∉ (λ lineData, id (element lineData)) <$> connectionLines m)
         <$> connectionSvg m;
     connectionLines := [];
     isEnabled := isEnabled m |}.

(** The [switch] of [togglePathState]. *)
Definition next_state (s : Z) : Z :=
  if s =? PATH_STATES.TRANSPARENT then PATH_STATES.PINK_SOLID
  else if s =? PATH_STATES.PINK_SOLID then PATH_STATES.GREEN_SOLID
  else if s =? PATH_STATES.GREEN_SOLID then PATH_STATES.TRANSPARENT
  else PATH_STATES.TRANSPARENT.

(** [find(line => line.element === pathElement)], then the update of the line
    found, in place. *)
Fixpoint toggle_found (pathElement : PathElement) (lines : list LineData)
    : list LineData :=
  match lines with
  | [] => []
  | line :: rest =>
      if Nat.eqb (id (element line)) (id pathElement)
      then set_state line (next_state (state line)) :: rest
      else line :: toggle_found pathElement rest
  end.

Definition togglePathState (pathElement : PathElement) (m : t) : t :=
  {| connectionSvg := connectionSvg m;
     connectionLines := toggle_found pathElement (connectionLines m);
     isEnabled := isEnabled m |}.

Definition resetAllPaths (m : t) : t :=
  if negb (isEnabled m) then m
  else {| connectionSvg := connectionSvg m;
          connectionLines :=
            (λ lineData, set_state lineData PATH_STATES.TRANSPARENT)
              <$> connectionLines m;
          isEnabled := isEnabled m |}.

(** The map [currentStates] of [_rebuildAllPaths], keyed by [`${from}-${to}`]. *)
Definition currentStates (lines : list LineData) : gmap (Z * Z) Z :=
  foldl (λ states lineData,
           <[(from lineData, to lineData) := state lineData]> states)
        ∅ lines.

(** The connections of the complete graph, listed by the two loops of
    [_rebuildAllPaths]. *)
Definition complete_connections (itemCount : Z) : list GraphManager.Connection :=
  for_range 0 (Z.to_nat itemCount)
    (λ i connections,
       for_range (i + 1) (Z.to_nat itemCount)
         (λ j connections,
            connections ++ [ {| GraphManager.from := Z.of_nat i;
                                GraphManager.to := Z.of_nat j |} ])
         connections) [].

Definition restore_state (states : gmap (Z * Z) Z) (lineData : LineData) : LineData :=
  match states !! (from lineData, to lineData) with
  | Some s => set_state lineData s
  | None => lineData
  end.

Definition _rebuildAllPaths (config : Config.t) (w : World) : World :=
  if negb (isEnabled (manager w)) then w
  else
    let states := currentStates (connectionLines (manager w)) in
    let w1 := {| math := math w; created := created w;
                 manager := clearConnections (manager w) |} in
    let connections := complete_connections (Config.itemCount config) in
    let w2 := createConnectionLines config connections w1 in
    {| math := math w2; created := created w2;
       manager := {| connectionSvg := connectionSvg (manager w2);
                     connectionLines :=
                       restore_state states <$> connectionLines (manager w2);
                     isEnabled := isEnabled (manager w2) |} |}.

(** [getItemConnections(itemIndex)]: the lines with the item at either end. *)
Definition getItemConnections (itemIndex : Z) (m : t) : list LineData :=
  filter (λ lineData, from lineData = itemIndex ∨ to lineData = itemIndex)
    (connectionLines m).

Definition getConnectionCount (m : t) : nat := length (connectionLines m).

(** What is asked of the path manager. *)
Inductive Op :=
| CreateConnectionLines (connections : list GraphManager.Connection)
| TogglePathState (pathElement : PathElement)
| ResetAllPaths
| RebuildAllPaths
| ClearConnections.

Definition set_manager (w : World) (m : t) : World :=
  {| math := math w; created := created w; manager := m |}.

(** One request, made while [config] is the active configuration. *)
Definition perform (w : World) (request : Config.t * Op) : World :=
  match request.2 with
  | CreateConnectionLines connections =>
      createConnectionLines request.1 connections w
  | TogglePathState pathElement =>
      set_manager w (togglePathState pathElement (manager w))
  | ResetAllPaths => set_manager w (resetAllPaths (manager w))
  | RebuildAllPaths => _rebuildAllPaths request.1 w
  | ClearConnections => set_manager w (clearConnections (manager w))
  end.

(** The states a path manager can be in: a new one, after any requests. *)
Definition run (requests : list (Config.t * Op)) (w : World) : World :=
  foldl perform w requests.

(** Three lines drawn on the desktop layout, the second toggled once. *)
Definition two_toggled_requests : list (Config.t * Op) :=
  let config := ResponsiveConfigManager._calculateConfig ResponsiveConfigManager.DESKTOP 8 in
  [ (config, CreateConnectionLines
               [ {| GraphManager.from := 0; GraphManager.to := 1 |};
                 {| GraphManager.from := 0; GraphManager.to := 4 |};
                 {| GraphManager.from := 1; GraphManager.to := 3 |} ]);
    (config, TogglePathState
               {| id := 1; d := LinearPath {| Point.x := 0; Point.y := 0 |}
                                           {| Point.x := 0; Point.y := 0 |};
                  data_from := 0; data_to := 4 |}) ].

Definition two_toggled_world : World :=
  run two_toggled_requests (start (Some []) MathUtils.initial).

(** Three lines among eight items, (0,1) PINK_SOLID, (1,3) GREEN_SOLID and
    (1,7) PINK_SOLID, each with its element in the SVG. *)
Definition three_lines_world : World :=
  let line (n : nat) (a b s : Z) :=
    {| element := {| id := n;
                     d := LinearPath {| Point.x := 0; Point.y := 0 |}
                                     {| Point.x := 0; Point.y := 0 |};
                     data_from := a; data_to := b |};
       from := a; to := b; state := s |} in
  let lines := [ line 0%nat 0 1 PATH_STATES.PINK_SOLID;
                 line 8%nat 1 3 PATH_STATES.GREEN_SOLID;
                 line 12%nat 1 7 PATH_STATES.PINK_SOLID ] in
  {| math := MathUtils.initial; created := 28;
     manager := {| connectionSvg := Some (element <$> lines);
                   connectionLines := lines; isEnabled := true |} |}.

(** The key [`${from}-${to}`] of a line. *)
Definition key (lineData : LineData) : Z * Z := (from lineData, to lineData).

(** *** Vocabulary of the specification *)

(** The connection joins two opposite items of [N]. *)
Definition diagonal (config : Config.t) (N : Z) (connection : GraphManager.Connection)
    : Prop :=
  MathUtils.isDiagonalPair config (GraphManager.from connection)
    (GraphManager.to connection) (Some N) = true.

(** The line is drawn as a straight segment. *)
Definition straight (lineData : LineData) : Prop :=
  is_linear (d (element lineData)) = true.

#[global] Instance diagonal_dec (config : Config.t) (N : Z)
    (connection : GraphManager.Connection) : Decision (diagonal config N connection).
Proof. unfold diagonal. apply _. Defined.

#[global] Instance straight_dec (lineData : LineData) : Decision (straight lineData).
Proof. unfold straight. apply _. Defined.

(** Four items on the desktop layout. *)
Definition four_items_config : Config.t :=
  ResponsiveConfigManager._calculateConfig ResponsiveConfigManager.DESKTOP 4.

(** The opposite pairs [{i, i + n/2}] of an even [n]. *)
Definition opposite_pairs (n : nat) : list (nat * nat) :=
  (λ i, (i, (i + n / 2)%nat)) <$> seq 0 (n / 2).

Definition valid_state (s : Z) : Prop :=
  s = PATH_STATES.TRANSPARENT ∨ s = PATH_STATES.PINK_SOLID
  ∨ s = PATH_STATES.GREEN_SOLID.

(** Every line is in one of the three states, and no two lines share their
    element, each of which was created before now. *)
Definition well_formed (w : World) : Prop :=
  Forall (λ lineData, valid_state (state lineData)) (connectionLines (manager w))
  ∧ NoDup ((λ lineData, id (element lineData)) <$> connectionLines (manager w))
  ∧ Forall (λ lineData, (id (element lineData) < created w)%nat)
      (connectionLines (manager w)).

(** A line made by [createSingleLine] for a connection. *)
Definition made_for (config : Config.t) (connection : GraphManager.Connection)
    (lineData : LineData) : Prop :=
  from lineData = GraphManager.from connection
  ∧ to lineData = GraphManager.to connection
  ∧ state lineData = PATH_STATES.TRANSPARENT
  ∧ is_linear (d (element lineData))
    = MathUtils.isDiagonalPair config (GraphManager.from connection)
        (GraphManager.to connection) (Some (Config.itemCount config)).

(** The SVG holds the elements of the current lines, and nothing else. *)
Definition in_sync (w : World) : Prop :=
  isEnabled (manager w) = true
  ∧ connectionSvg (manager w) = Some (element <$> connectionLines (manager w)).

(** The key and the state a line has once [states] is restored. *)
Definition restored (states : gmap (Z * Z) Z) (k : Z * Z) : (Z * Z) * Z :=
  (k, default PATH_STATES.TRANSPARENT (states !! k)).

(** The line the specification describes for a connection, the items standing
    on the configured circle at the angles of the configured count: its ends
    are the connection's, and its path runs between the positions of the two
    items, as a straight segment when [isDiagonalPair] holds of them, otherwise
    as a quadratic curve through the control point [getArcControlPoint] gives
    for the two positions. *)
Definition drawn_for (config : Config.t) (connection : GraphManager.Connection)
    (lineData : LineData) : Prop :=
  let N := Config.itemCount config in
  let pos1 := MathUtils.circle_point config
                (MathUtils.item_angle (GraphManager.from connection) N) in
  let pos2 := MathUtils.circle_point config
                (MathUtils.item_angle (GraphManager.to connection) N) in
  from lineData = GraphManager.from connection
  ∧ to lineData = GraphManager.to connection
  ∧ if MathUtils.isDiagonalPair config (GraphManager.from connection)
         (GraphManager.to connection) (Some N)
    then d (element lineData) = LinearPath pos1 pos2
    else ∃ controlPoint,
           d (element lineData) = ArcPath pos1 (Some controlPoint) pos2
           ∧ MathUtils.getArcControlPoint config pos1 pos2
               (Some (Q2R (Config.arcHeightRatio config))) = Some controlPoint.

(** A path manager over an SVG with the given children and no line yet, in a
    document where [created] elements were created, the position cache being
    the one left by [history]. *)
Definition fresh_world (history : list (Config.t * MathUtils.Call)) (created : nat)
    (children : list PathElement) : World :=
  {| math := (MathUtils.calls history MathUtils.initial).2;
     created := created;
     manager := {| connectionSvg := Some children; connectionLines := [];
                   isEnabled := true |} |}.

End PathManager.

(** ** core/gallery-viewer.js *)

Module GSAPGalleryViewer.

(** [needsRebuild(newConfig)], as a function of the fields it reads:
    [this.currentConfig] ([None] for a missing one),
    [this.elements.galleryItems.length] and [this.itemCount]. *)
Definition needsRebuild (currentConfig : option Config.t) (galleryItems itemCount : Z)
    (newConfig : Config.t) : bool :=
  match currentConfig with
  | None => true
  | Some currentConfig =>
      let newItemCount := Z.min galleryItems (Config.itemCount newConfig) in
      if negb (newItemCount =? itemCount) then true
      else
        negb (Config.containerWidth currentConfig =? Config.containerWidth newConfig)
        || negb (Config.containerHeight currentConfig =? Config.containerHeight newConfig)
  end.

End GSAPGalleryViewer.

(* ================================================================== *)
(** * Properties *)
(* ================================================================== *)

(** ** Loops *)

Lemma foldl_bind {A B S : Type} (f : S → B → S) (g : A → list B) (l : list A) (s : S) :
  foldl f s (l ≫= g) = foldl (λ acc x, foldl f acc (g x)) s l.
Proof.
  revert s. induction l as [|x l IH]; intros s; [reflexivity|].
  cbn. rewrite foldl_app. apply IH.
Qed.

Lemma foldl_ext_in {A S : Type} (f g : S → A → S) (l : list A) (s : S) :
  (∀ acc x, x ∈ l → f acc x = g acc x) → foldl f s l = foldl g s l.
Proof.
  revert s. induction l as [|x l IH]; intros s H; [reflexivity|].
  cbn. rewrite H by left. apply IH. intros acc y Hy. apply H. by right.
Qed.

(** A loop that only appends is the concatenation of what each round appends. *)
Lemma foldl_push {A B : Type} (g : A → list B) (l : list A) (acc : list B) :
  foldl (λ acc x, acc ++ g x) acc l = acc ++ (l ≫= g).
Proof.
  revert acc. induction l as [|x l IH]; intros acc; cbn.
  - by rewrite app_nil_r.
  - rewrite IH. by rewrite app_assoc.
Qed.

(** ** GraphManager: edge validation (C10) *)

Section GraphEdges.
Import GraphManager.

Lemma isValidEdge_spec (g : t) (i j : Z) :
  isValidEdge g i j = true ↔
  i ≠ j ∧ 0 ≤ i < Z.of_nat (length (adjacencyMatrix g))
        ∧ 0 ≤ j < Z.of_nat (length (adjacencyMatrix g)).
Proof.
  unfold isValidEdge.
  rewrite !andb_true_iff, negb_true_iff, Z.eqb_neq, !Z.leb_le, !Z.ltb_lt. lia.
Qed.

Lemma isValidEdge_false (g : t) (i j : Z) :
  i = j ∨ ¬ (0 ≤ i < Z.of_nat (length (adjacencyMatrix g)))
        ∨ ¬ (0 ≤ j < Z.of_nat (length (adjacencyMatrix g))) →
  isValidEdge g i j = false.
Proof.
  intros H. apply not_true_is_false. rewrite isValidEdge_spec. lia.
Qed.

(** C10.  On a graph of [N] nodes, for every pair of indices with [i = j] or
    with an index outside [[0, N)], [addEdge] and [removeEdge] return the
    graph unchanged (adjacency matrix included, no error path is taken) and
    [areConnected] answers [false]. *)
Theorem invalid_edge_is_noop (g : t) (i j : Z) :
  i = j ∨ ¬ (0 ≤ i < Z.of_nat (length (adjacencyMatrix g)))
        ∨ ¬ (0 ≤ j < Z.of_nat (length (adjacencyMatrix g))) →
  addEdge g i j = g ∧ removeEdge g i j = g ∧ areConnected g i j = false.
Proof.
  intros H. apply isValidEdge_false in H.
  unfold addEdge, removeEdge, areConnected. rewrite H. auto.
Qed.

(** C10 at a self-loop, at a negative index and at an index equal to the node
    count, on the complete graph of three nodes. *)
Lemma invalid_edge_is_noop_witness :
  (addEdge (build 3) 1 1 = build 3 ∧ removeEdge (build 3) 1 1 = build 3
   ∧ areConnected (build 3) 1 1 = false)
  ∧ (addEdge (build 3) (-1) 2 = build 3 ∧ removeEdge (build 3) (-1) 2 = build 3
     ∧ areConnected (build 3) (-1) 2 = false)
  ∧ (addEdge (build 3) 0 3 = build 3 ∧ removeEdge (build 3) 0 3 = build 3
     ∧ areConnected (build 3) 0 3 = false).
Proof.
  split; [|split].
  - apply (invalid_edge_is_noop (build 3) 1 1). left. reflexivity.
  - apply (invalid_edge_is_noop (build 3) (-1) 2). right. left. lia.
  - apply (invalid_edge_is_noop (build 3) 0 3). right. right. vm_compute. intuition discriminate.
Defined.

End GraphEdges.

(** ** GraphManager: the complete graph and its enumeration (C1) *)

Section CompleteGraph.
Import GraphManager.

Lemma elem_of_upper_pairs (n i j : nat) :
  (i, j) ∈ upper_pairs n ↔ (i < j < n)%nat.
Proof.
  unfold upper_pairs. rewrite list_elem_of_bind. split.
  - intros (a & Hj & Ha). apply list_elem_of_fmap in Hj as (b & Heq & Hb).
    inversion Heq; subst. apply elem_of_seq in Ha, Hb. lia.
  - intros H. exists i. split.
    + apply list_elem_of_fmap. exists j. split; [done|]. apply elem_of_seq. lia.
    + apply elem_of_seq. lia.
Qed.

Lemma NoDup_upper_pairs (n : nat) : NoDup (upper_pairs n).
Proof.
  apply NoDup_bind.
  - intros a1 a2 [i j] _ _ H1 H2.
    apply list_elem_of_fmap in H1 as (? & E1 & _), H2 as (? & E2 & _). congruence.
  - intros a _. apply NoDup_fmap_2; [|apply NoDup_seq]. intros ?? E. congruence.
  - apply NoDup_seq.
Qed.

(** Rows [n - k .. n - 1] hold [k (k - 1) / 2] pairs. *)
Lemma length_upper_rows (n k : nat) :
  (k ≤ n)%nat →
  (2 * length (seq (n - k) k ≫= λ i, (λ j, (i, j)) <$> seq (i + 1) (n - (i + 1)))
   = k * (k - 1))%nat.
Proof.
  induction k as [|k IH]; intros Hk; [reflexivity|].
  replace (n - S k)%nat with (n - k - 1)%nat by lia.
  cbn [seq]. replace (S (n - k - 1)) with (n - k)%nat by lia.
  cbn [mbind list_bind]. rewrite length_app, length_fmap, length_seq.
  specialize (IH ltac:(lia)). nia.
Qed.

Lemma length_upper_pairs (n : nat) :
  length (upper_pairs n) = (n * (n - 1) / 2)%nat.
Proof.
  pose proof (length_upper_rows n n (le_n n)) as H.
  rewrite Nat.sub_diag in H. fold (upper_pairs n) in H.
  rewrite <- H, Nat.mul_comm, Nat.div_mul; lia.
Qed.

(** *** Writes to the matrix *)

Lemma square_set_entry (n : nat) (m : list (list Z)) (i j : nat) (v : Z) :
  square n m → square n (set_entry m i j v).
Proof.
  intros [Hlen Hrows]. split.
  - unfold set_entry. by rewrite length_alter.
  - apply Forall_alter; [done|]. intros row _ Hrow. by rewrite length_insert.
Qed.

Lemma entry_set_entry (n : nat) (m : list (list Z)) (i j a b : nat) (v : Z) :
  square n m → (i < n)%nat → (j < n)%nat →
  entry (set_entry m i j v) a b =
    if decide (a = i ∧ b = j) then Some v else entry m a b.
Proof.
  intros [Hlen Hrows] Hi Hj. unfold entry, set_entry.
  rewrite list_lookup_alter.
  destruct (decide (i = a)) as [->|Hia].
  - destruct (m !! a) as [row|] eqn:Hrow.
    + cbn. rewrite list_lookup_insert.
      assert (length row = n) as Hr
        by (eapply Forall_forall in Hrows; [exact Hrows | eapply list_elem_of_lookup_2; eauto]).
      repeat case_decide; try done; lia.
    + apply lookup_ge_None in Hrow. lia.
  - case_decide; [lia | done].
Qed.

Lemma square_initializeMatrix (n : nat) : square n (initializeMatrix n).
Proof.
  split; [apply length_replicate|].
  apply Forall_replicate, length_replicate.
Qed.

Lemma entry_initializeMatrix (n a b : nat) :
  (a < n)%nat → (b < n)%nat → entry (initializeMatrix n) a b = Some 0.
Proof.
  intros Ha Hb. unfold entry, initializeMatrix.
  rewrite lookup_replicate_2 by done. cbn. by rewrite lookup_replicate_2.
Qed.

(** *** [addEdge] on a square matrix *)

Lemma imageCount_addEdge (g : t) (i j : Z) :
  imageCount (addEdge g i j) = imageCount g.
Proof. unfold addEdge. by destruct (isValidEdge g i j). Qed.

Lemma square_addEdge (n : nat) (g : t) (i j : Z) :
  square n (adjacencyMatrix g) → square n (adjacencyMatrix (addEdge g i j)).
Proof.
  intros H. unfold addEdge. destruct (isValidEdge g i j); [|done].
  cbn. by do 2 apply square_set_entry.
Qed.

Lemma entry_addEdge (n : nat) (g : t) (i j a b : nat) :
  square n (adjacencyMatrix g) → i ≠ j → (i < n)%nat → (j < n)%nat →
  entry (adjacencyMatrix (addEdge g (Z.of_nat i) (Z.of_nat j))) a b =
    if decide ((a, b) = (i, j) ∨ (a, b) = (j, i)) then Some 1
    else entry (adjacencyMatrix g) a b.
Proof.
  intros Hsq Hij Hi Hj. unfold addEdge.
  assert (isValidEdge g (Z.of_nat i) (Z.of_nat j) = true) as ->.
  { apply isValidEdge_spec. destruct Hsq as [-> _]. lia. }
  cbn. rewrite !Nat2Z.id.
  rewrite (entry_set_entry n), (entry_set_entry n);
    auto using square_set_entry.
  repeat case_decide; try done; naive_solver.
Qed.

(** A run of [addEdge] over a list of valid pairs sets exactly the listed
    entries and their mirror images. *)
Lemma foldl_addEdge (n : nat) (ps : list (nat * nat)) (g : t) :
  square n (adjacencyMatrix g) →
  Forall (λ p, p.1 ≠ p.2 ∧ (p.1 < n)%nat ∧ (p.2 < n)%nat) ps →
  let g' := foldl (λ g p, addEdge g (Z.of_nat p.1) (Z.of_nat p.2)) g ps in
  imageCount g' = imageCount g
  ∧ square n (adjacencyMatrix g')
  ∧ ∀ a b, entry (adjacencyMatrix g') a b =
      if decide ((a, b) ∈ ps ∨ (b, a) ∈ ps) then Some 1
      else entry (adjacencyMatrix g) a b.
Proof.
  revert g. induction ps as [|[i j] ps IH]; intros g Hsq Hps; cbn.
  - split; [done|]. split; [done|]. intros a b. case_decide as H; [|done].
    destruct H as [H|H]; by apply elem_of_nil in H.
  - apply Forall_cons in Hps as [(Hij & Hi & Hj) Hps]. cbn in Hij, Hi, Hj.
    destruct (IH (addEdge g (Z.of_nat i) (Z.of_nat j))
                (square_addEdge n g _ _ Hsq) Hps) as (Hc & Hsq' & Hent).
    split; [by rewrite Hc, imageCount_addEdge|]. split; [done|].
    intros a b. rewrite Hent, (entry_addEdge n) by done.
    destruct (decide ((a, b) = (i, j) ∨ (a, b) = (j, i))) as [Hab|Hab];
      destruct (decide ((a, b) ∈ ps ∨ (b, a) ∈ ps)) as [Hps'|Hps'];
      destruct (decide ((a, b) ∈ (i, j) :: ps ∨ (b, a) ∈ (i, j) :: ps)) as [Hc'|Hc'];
      try done; exfalso; rewrite !elem_of_cons in Hc'; naive_solver.
Qed.

(** *** The loops of [setupCompleteGraph] *)

Lemma foldl_inv_ext {A S : Type} (P : S → Prop) (f g : S → A → S)
    (l : list A) (s : S) :
  P s → (∀ acc x, P acc → f acc x = g acc x) → (∀ acc x, P acc → P (g acc x)) →
  foldl f s l = foldl g s l.
Proof.
  intros Hs Hfg HP. revert s Hs. induction l as [|x l IH]; intros s Hs; [done|].
  cbn. rewrite Hfg by done. auto.
Qed.

Lemma imageCount_inner_loop (i n : nat) (g : t) :
  imageCount (for_range (i + 1) n (λ j g, addEdge g (Z.of_nat i) (Z.of_nat j)) g)
  = imageCount g.
Proof.
  unfold for_range. generalize (seq (i + 1) (n - (i + 1))). intros l.
  revert g. induction l as [|j l IH]; intros g; [done|].
  cbn. by rewrite IH, imageCount_addEdge.
Qed.

(** The nested loops are one run of [addEdge] over [upper_pairs]. *)
Lemma connect_loops_upper_pairs (g : t) :
  for_range 0 (imageCount g)
    (λ i g, for_range (i + 1) (imageCount g)
              (λ j g, addEdge g (Z.of_nat i) (Z.of_nat j)) g) g
  = foldl (λ g p, addEdge g (Z.of_nat p.1) (Z.of_nat p.2)) g
      (upper_pairs (imageCount g)).
Proof.
  unfold upper_pairs. rewrite foldl_bind. unfold for_range at 1.
  rewrite Nat.sub_0_r.
  apply (foldl_inv_ext (λ acc, imageCount acc = imageCount g)); [done| |].
  - intros acc i Hacc. rewrite foldl_fmap. unfold for_range. by rewrite Hacc.
  - intros acc i Hacc. rewrite foldl_fmap.
    pose proof (imageCount_inner_loop i (imageCount g) acc) as H.
    unfold for_range in H. cbn in *. by rewrite H.
Qed.

Lemma diagonal_loop (n : nat) (g : t) :
  square n (adjacencyMatrix g) → imageCount g = n →
  let g1 := for_range 0 (imageCount g)
              (λ i g, {| imageCount := imageCount g;
                         adjacencyMatrix := set_entry (adjacencyMatrix g) i i 0 |}) g in
  imageCount g1 = n ∧ square n (adjacencyMatrix g1)
  ∧ ∀ a b, entry (adjacencyMatrix g1) a b =
      if decide (a = b ∧ (a < n)%nat) then Some 0 else entry (adjacencyMatrix g) a b.
Proof.
  intros Hsq Hn. rewrite Hn. unfold for_range. rewrite Nat.sub_0_r.
  assert (∀ k, (k ≤ n)%nat →
    let g1 := foldl (λ acc i, {| imageCount := imageCount acc;
                  adjacencyMatrix := set_entry (adjacencyMatrix acc) i i 0 |}) g (seq 0 k) in
    imageCount g1 = n ∧ square n (adjacencyMatrix g1)
    ∧ ∀ a b, entry (adjacencyMatrix g1) a b =
        if decide (a = b ∧ (a < k)%nat) then Some 0 else entry (adjacencyMatrix g) a b)
    as H.
  { induction k as [|k IH]; intros Hk; cbn zeta.
    - cbn. split; [done|]. split; [done|]. intros a b. case_decide; [lia|done].
    - rewrite seq_S, foldl_app. cbn.
      destruct (IH ltac:(lia)) as (Hc & Hsq' & Hent).
      split; [done|]. split; [by apply square_set_entry|].
      intros a b. rewrite (entry_set_entry n) by (done || lia).
      rewrite Hent. repeat case_decide; try done; lia. }
  apply (H n). lia.
Qed.

(** The adjacency matrix of the complete graph: zero on the diagonal, one
    everywhere else. *)
Lemma entry_build (n a b : nat) :
  (a < n)%nat → (b < n)%nat →
  entry (adjacencyMatrix (build n)) a b = Some (if decide (a = b) then 0 else 1).
Proof.
  intros Ha Hb. unfold build, setupCompleteGraph.
  set (g0 := {| imageCount := n; adjacencyMatrix := initializeMatrix n |}).
  destruct (diagonal_loop n g0 (square_initializeMatrix n) eq_refl)
    as (Hc & Hsq & Hent).
  cbn zeta in Hc, Hsq, Hent.
  set (g1 := for_range 0 (imageCount g0) _ g0) in *.
  rewrite connect_loops_upper_pairs.
  destruct (foldl_addEdge n (upper_pairs (imageCount g1)) g1 Hsq) as (_ & _ & Hent').
  { apply Forall_forall. intros [i j] Hin. rewrite Hc in Hin.
    apply elem_of_upper_pairs in Hin. cbn. lia. }
  rewrite Hent'.
  destruct (decide ((a, b) ∈ upper_pairs (imageCount g1)
                    ∨ (b, a) ∈ upper_pairs (imageCount g1))) as [H|H];
    rewrite Hc, !elem_of_upper_pairs in H.
  - case_decide; [lia | done].
  - rewrite Hent. change (adjacencyMatrix g0) with (initializeMatrix n).
    rewrite entry_initializeMatrix by done.
    repeat case_decide; try done; lia.
Qed.

Lemma square_build (n : nat) :
  imageCount (build n) = n ∧ square n (adjacencyMatrix (build n)).
Proof.
  unfold build, setupCompleteGraph.
  set (g0 := {| imageCount := n; adjacencyMatrix := initializeMatrix n |}).
  destruct (diagonal_loop n g0 (square_initializeMatrix n) eq_refl)
    as (Hc & Hsq & _).
  cbn zeta in Hc, Hsq.
  set (g1 := for_range 0 (imageCount g0) _ g0) in *.
  rewrite connect_loops_upper_pairs.
  destruct (foldl_addEdge n (upper_pairs (imageCount g1)) g1 Hsq) as (Hc' & Hsq' & _).
  { apply Forall_forall. intros [i j] Hin. rewrite Hc in Hin.
    apply elem_of_upper_pairs in Hin. cbn. lia. }
  split; [congruence | done].
Qed.

(** *** [getConnections] *)

Lemma fmap_bind {A B C : Type} (f : B → C) (g : A → list B) (l : list A) :
  f <$> (l ≫= g) = l ≫= λ x, f <$> g x.
Proof.
  induction l as [|x l IH]; [done|]. by rewrite !bind_cons, fmap_app, IH.
Qed.

Lemma row_connections_push (row : list Z) (i : nat) (acc : list Connection) :
  row_connections row i acc =
    acc ++ (seq (i + 1) (length row - (i + 1)) ≫= λ j,
              match row !! j with
              | Some 1 => [connection_of (i, j)]
              | _ => []
              end).
Proof.
  unfold row_connections, for_range. rewrite <- foldl_push.
  apply foldl_ext_in. intros acc' j _.
  destruct (row !! j) as [[|[]|]|]; by rewrite ?app_nil_r.
Qed.

(** On a matrix whose upper triangle is all ones, the enumeration is the
    canonical one. *)
Lemma getConnections_upper_ones (n : nat) (g : t) :
  square n (adjacencyMatrix g) →
  (∀ a b, (a < b < n)%nat → entry (adjacencyMatrix g) a b = Some 1) →
  getConnections g = connection_of <$> upper_pairs n.
Proof.
  intros [Hlen Hrows] Hones. unfold getConnections, for_range, upper_pairs.
  rewrite Hlen, Nat.sub_0_r, fmap_bind.
  rewrite <- (app_nil_l (seq 0 n ≫= _)), <- foldl_push.
  apply foldl_ext_in. intros acc i Hi. apply elem_of_seq in Hi.
  destruct (adjacencyMatrix g !! i) as [row|] eqn:Hrow.
  2:{ apply lookup_ge_None in Hrow. lia. }
  assert (length row = n) as Hr by (eapply (Forall_lookup_1 _ _ _ _ Hrows); eauto).
  rewrite row_connections_push, Hr. f_equal.
  rewrite <- list_fmap_compose.
  generalize (eq_refl (seq (i + 1) (n - (i + 1)))).
  generalize (seq (i + 1) (n - (i + 1))) at 1 3 4. intros l Hl.
  assert (∀ j, j ∈ l → (i < j < n)%nat) as Hin
    by (intros j Hj; rewrite Hl in Hj; apply elem_of_seq in Hj; lia).
  clear Hl. induction l as [|j l IH]; [done|].
  rewrite bind_cons, fmap_cons, IH by (intros; apply Hin; by right).
  specialize (Hones i j (Hin j ltac:(left))).
  unfold entry in Hones. rewrite Hrow in Hones. cbn in Hones. by rewrite Hones.
Qed.

Lemma getConnections_build (n : nat) :
  getConnections (build n) = connection_of <$> upper_pairs n.
Proof.
  apply getConnections_upper_ones; [apply square_build|].
  intros a b Hab. rewrite entry_build by lia. case_decide; [lia | done].
Qed.

Lemma connection_of_inj : Inj eq eq connection_of.
Proof.
  intros [a b] [c d] H. unfold connection_of in H. cbn in H.
  injection H as H1 H2. apply Nat2Z.inj in H1, H2. by subst.
Qed.

(** C1.  For every item count [n], the complete graph over [[0, n)] built by
    [setupCompleteGraph] answers [getConnections()] with exactly
    [n (n - 1) / 2] pairs, each with [0 <= from < to < n], and no unordered
    pair occurs at two positions of the answer. *)
Theorem complete_graph_connections (n : nat) :
  length (getConnections (build n)) = (n * (n - 1) / 2)%nat
  ∧ Forall (λ c, 0 ≤ from c < to c ∧ to c < Z.of_nat n) (getConnections (build n))
  ∧ ∀ k1 k2 c1 c2,
      getConnections (build n) !! k1 = Some c1 →
      getConnections (build n) !! k2 = Some c2 →
      k1 ≠ k2 →
      ¬ ((from c1 = from c2 ∧ to c1 = to c2) ∨ (from c1 = to c2 ∧ to c1 = from c2)).
Proof.
  rewrite getConnections_build.
  assert (Forall (λ c, 0 ≤ from c < to c ∧ to c < Z.of_nat n)
            (connection_of <$> upper_pairs n)) as Hbounds.
  { apply Forall_fmap, Forall_forall. intros [i j] Hin.
    apply elem_of_upper_pairs in Hin. cbn. lia. }
  split; [by rewrite length_fmap, length_upper_pairs|]. split; [done|].
  intros k1 k2 c1 c2 H1 H2 Hne Hsame.
  pose proof (Forall_lookup_1 _ _ _ _ Hbounds H1) as B1.
  pose proof (Forall_lookup_1 _ _ _ _ Hbounds H2) as B2. cbn in B1, B2.
  destruct Hsame as [[Hf Ht]|[Hf Ht]]; [|lia].
  assert (c1 = c2) as -> by (destruct c1, c2; cbn in *; congruence).
  apply Hne. eapply NoDup_lookup; [|exact H1|exact H2].
  apply NoDup_fmap_2; [apply connection_of_inj | apply NoDup_upper_pairs].
Qed.

(** The scenario of the specification: 8 items give 28 connections, 6 give 15. *)
Example connections_8_then_6 :
  length (getConnections (build 8)) = 28%nat
  ∧ length (getConnections (updateItemCount (build 8) 6)) = 15%nat.
Proof. split; vm_compute; reflexivity. Qed.

End CompleteGraph.


(** ** ResponsiveConfigManager: breakpoint detection (C6) *)

Section Breakpoints.
Import ResponsiveConfigManager.

Lemma Qle_bool_inject_Z (a b : Z) : Qle_bool (inject_Z a) (inject_Z b) = (a <=? b).
Proof. unfold Qle_bool, inject_Z. cbn. by rewrite !Z.mul_1_r. Qed.

Lemma getBreakpoint_integer (w : Z) :
  getBreakpoint (inject_Z w) =
    if 769 <=? w then DESKTOP else if 481 <=? w then TABLET else MOBILE.
Proof.
  unfold getBreakpoint, width_ge, width_le. cbn [min max DESKTOP TABLET].
  rewrite !Qle_bool_inject_Z.
  destruct (769 <=? w) eqn:H1; [done|].
  destruct (481 <=? w) eqn:H2; [|done].
  apply Z.leb_gt in H1. assert ((w <=? 768) = true) as -> by (apply Z.leb_le; lia). done.
Qed.

Lemma in_declared_range_integer (bp : Breakpoint) (w : Z) :
  in_declared_range bp (inject_Z w) ↔
  (∀ lo, min bp = Some lo → lo ≤ w) ∧ (∀ hi, max bp = Some hi → w ≤ hi).
Proof.
  unfold in_declared_range. split; intros [Hlo Hhi]; split; intros b Hb.
  - rewrite Zle_Qle. auto.
  - rewrite Zle_Qle. auto.
  - rewrite <- Zle_Qle. auto.
  - rewrite <- Zle_Qle. auto.
Qed.

(** C6 as stated fails off the integers: the width 768.5 lies in no tier's
    declared range, and the tier selected for it, mobile, declares widths up to
    480 only. *)
Lemma getBreakpoint_between_tiers :
  getBreakpoint (Qmake 1537 2) = MOBILE
  ∧ ¬ in_declared_range (getBreakpoint (Qmake 1537 2)) (Qmake 1537 2)
  ∧ ∀ bp, bp ∈ BREAKPOINTS → ¬ in_declared_range bp (Qmake 1537 2).
Proof.
  assert (¬ (Qmake 1537 2 <= inject_Z 768)%Q) as Hhi by (intros H; vm_compute in H; auto).
  assert (¬ (Qmake 1537 2 <= inject_Z 480)%Q) as Hlo by (intros H; vm_compute in H; auto).
  assert (¬ (inject_Z 769 <= Qmake 1537 2)%Q) as Hd by (intros H; vm_compute in H; auto).
  split; [reflexivity|]. split.
  - intros [_ H]. apply Hlo, H. reflexivity.
  - intros bp Hbp [Hmin Hmax]. unfold BREAKPOINTS in Hbp.
    rewrite !elem_of_cons in Hbp. destruct Hbp as [->|[->|[->|Hbp]]].
    + apply Hd, Hmin. reflexivity.
    + apply Hhi, Hmax. reflexivity.
    + apply Hlo, Hmax. reflexivity.
    + by apply elem_of_nil in Hbp.
Qed.

(** C6, amended.  For every integer viewport width, [getBreakpoint] selects one
    of the three tiers, the declared range of the selected tier (mobile up to
    480, tablet 481 to 768, desktop from 769) contains the width, and no other
    tier's declared range does. *)
Theorem getBreakpoint_integer_width (w : Z) :
  getBreakpoint (inject_Z w) ∈ BREAKPOINTS
  ∧ in_declared_range (getBreakpoint (inject_Z w)) (inject_Z w)
  ∧ ∀ bp, bp ∈ BREAKPOINTS → in_declared_range bp (inject_Z w) →
          bp = getBreakpoint (inject_Z w).
Proof.
  rewrite getBreakpoint_integer. unfold BREAKPOINTS.
  destruct (769 <=? w) eqn:H1; [|destruct (481 <=? w) eqn:H2].
  - apply Z.leb_le in H1. split; [set_solver|]. split.
    + apply in_declared_range_integer. split; intros b [= <-]. done.
    + intros bp Hbp Hr. apply in_declared_range_integer in Hr as [Hlo Hhi].
      rewrite !elem_of_cons in Hbp. destruct Hbp as [->|[->|[->|Hbp]]]; [done| | |].
      * specialize (Hhi 768 eq_refl). lia.
      * specialize (Hhi 480 eq_refl). lia.
      * by apply elem_of_nil in Hbp.
  - apply Z.leb_gt in H1. apply Z.leb_le in H2. split; [set_solver|]. split.
    + apply in_declared_range_integer. split; intros b [= <-]; lia.
    + intros bp Hbp Hr. apply in_declared_range_integer in Hr as [Hlo Hhi].
      rewrite !elem_of_cons in Hbp. destruct Hbp as [->|[->|[->|Hbp]]]; [|done| |].
      * specialize (Hlo 769 eq_refl). lia.
      * specialize (Hhi 480 eq_refl). lia.
      * by apply elem_of_nil in Hbp.
  - apply Z.leb_gt in H1, H2. split; [set_solver|]. split.
    + apply in_declared_range_integer. split; intros b [= <-]; lia.
    + intros bp Hbp Hr. apply in_declared_range_integer in Hr as [Hlo Hhi].
      rewrite !elem_of_cons in Hbp. destruct Hbp as [->|[->|[->|Hbp]]]; [| |done|].
      * specialize (Hlo 769 eq_refl). lia.
      * specialize (Hlo 481 eq_refl). lia.
      * by apply elem_of_nil in Hbp.
Qed.

End Breakpoints.

(** ** ResponsiveConfigManager: debounced change notification (C5) *)

Section Debounce.
Import ResponsiveConfigManager.

(** One resize to 400 pixels at time 1000, left to settle: both subscribers are
    told, once, in registration order. *)
Example resize_alone_notifies :
  notified (run [(1000%nat, Resize (inject_Z 400)); (1300%nat, Idle)] desktop_page)
  = [(1%nat, MOBILE); (2%nat, MOBILE)].
Proof. vm_compute. reflexivity. Qed.

(** C5, failing run.  The same resize, but [getResponsiveConfig] is called
    (as every read of [GALLERY_CONFIG.current] does) 100 ms later, inside the
    debounce window: it stores the new breakpoint in [_currentBreakpoint], the
    expiring timer finds no change, and no subscriber is told although the
    window settled on mobile after desktop. *)
Theorem query_in_window_suppresses_notification :
  let w := run [(1000%nat, Resize (inject_Z 400)); (1100%nat, Query 8);
                (1300%nat, Idle)] desktop_page in
  _currentBreakpoint (rcm desktop_page) = Some DESKTOP
  ∧ _resizeCallbacks (rcm w) = [1%nat; 2%nat]
  ∧ timers w = []
  ∧ getBreakpoint (innerWidth w) = MOBILE
  ∧ notified w = [].
Proof. vm_compute. repeat split. Qed.

(** *** A window of resize events and nothing else *)

Lemma advance_no_timers (w : World) (t : nat) :
  timers w = [] →
  advance t w =
    {| innerWidth := innerWidth w; clock := Nat.max (clock w) t; timers := [];
       nextTimerId := nextTimerId w; resizeListeners := resizeListeners w;
       rcm := rcm w; notified := notified w |}.
Proof. intros H. unfold advance. rewrite H. reflexivity. Qed.

Lemma advance_before_due (w : World) (t id due : nat) :
  timers w = [(id, due)] → (t < due)%nat →
  advance t w =
    {| innerWidth := innerWidth w; clock := Nat.max (clock w) t;
       timers := [(id, due)];
       nextTimerId := nextTimerId w; resizeListeners := resizeListeners w;
       rcm := rcm w; notified := notified w |}.
Proof.
  intros H Ht. unfold advance. rewrite H.
  rewrite !filter_cons, !filter_nil. cbn [snd].
  destruct (decide (due ≤ t)%nat); [lia|].
  destruct (decide (¬ (due ≤ t)%nat)); [|done]. reflexivity.
Qed.

Lemma advance_at_due (w : World) (t id due : nat) :
  timers w = [(id, due)] → (due ≤ t)%nat →
  advance t w =
    debounced
      {| innerWidth := innerWidth w; clock := Nat.max (clock w) t; timers := [];
         nextTimerId := nextTimerId w; resizeListeners := resizeListeners w;
         rcm := rcm w; notified := notified w |}.
Proof.
  intros H Ht. unfold advance. rewrite H.
  rewrite !filter_cons, !filter_nil. cbn [snd].
  destruct (decide (due ≤ t)%nat); [|lia].
  destruct (decide (¬ (due ≤ t)%nat)); [done|]. reflexivity.
Qed.

(** A resize event, with one listener installed and at most the remembered
    timer pending, leaves exactly one timer, due 300 ms later; nobody is told
    anything yet. *)
Lemma resize_rearms (w : World) (t : nat) (q : Q) :
  resizeListeners w = 1%nat →
  (clock w ≤ t)%nat →
  timers w = [] ∨ (∃ due, armed w due ∧ (t < due)%nat) →
  let w' := step w (t, Resize q) in
  armed w' (t + 300) ∧ clock w' = t ∧ innerWidth w' = q
  ∧ resizeListeners w' = 1%nat
  ∧ _currentBreakpoint (rcm w') = _currentBreakpoint (rcm w)
  ∧ _resizeCallbacks (rcm w') = _resizeCallbacks (rcm w)
  ∧ notified w' = notified w.
Proof.
  intros Hl Hc Ht. unfold step. cbn [fst snd].
  destruct Ht as [Ht|(due & (id & Htm & Hid) & Hdue)].
  - rewrite advance_no_timers by done. unfold handle. cbn [resizeListeners].
    rewrite Hl. unfold for_range. cbn [seq foldl Nat.sub].
    unfold resize_listener. cbn [rcm].
    destruct (_debounceTimer (rcm w)) as [old|]; cbn;
      rewrite (Nat.max_r _ _ Hc); (split; [by eexists|done]).
  - rewrite (advance_before_due w t id due) by done. unfold handle.
    cbn [resizeListeners]. rewrite Hl. unfold for_range. cbn [seq foldl Nat.sub].
    unfold resize_listener. cbn [rcm]. rewrite Hid.
    unfold clearTimeout. cbn [timers]. rewrite filter_cons, filter_nil. cbn [fst].
    destruct (decide (id ≠ id)); [done|]. cbn.
    rewrite (Nat.max_r _ _ Hc). split; [by eexists|done].
Qed.

Lemma last_cons_default {A : Type} (a d : A) (l : list A) :
  List.last (a :: l) d = List.last l a.
Proof.
  revert a d. induction l as [|b l IH]; intros a d; [done|].
  change (List.last (a :: b :: l) d) with (List.last (b :: l) d).
  rewrite IH. symmetry. apply IH.
Qed.

Lemma window_settles (rs : list (nat * Q)) :
  ∀ (w : World) (t : nat) (prev : Breakpoint),
    armed w (t + 300) → clock w = t → resizeListeners w = 1%nat →
    _currentBreakpoint (rcm w) = Some prev →
    coalesced t rs →
    notified
      (run (resize_events rs
              ++ [(((List.last rs (t, innerWidth w)).1 + 300)%nat, Idle)]) w)
    = notified w ++
        (if bool_decide (name prev = name (getBreakpoint (List.last rs (t, innerWidth w)).2))
         then []
         else (λ callback, (callback, getBreakpoint (List.last rs (t, innerWidth w)).2))
                <$> _resizeCallbacks (rcm w)).
Proof.
  induction rs as [|[t' q] rs IH]; intros w t prev Harm Hclock Hl Hcur Hco.
  - cbn [List.last resize_events fmap list_fmap app fst snd run foldl step handle].
    destruct Harm as (id & Htm & _).
    rewrite (advance_at_due w (t + 300) id (t + 300)) by (done || lia).
    unfold debounced. cbn [rcm innerWidth]. rewrite Hcur. cbn [same_name].
    destruct (bool_decide (name prev = name (getBreakpoint (innerWidth w))));
      cbn [notified]; by rewrite ?app_nil_r.
  - destruct Hco as [Ht' Hco]. cbn [fst] in Ht', Hco.
    rewrite last_cons_default.
    change (resize_events ((t', q) :: rs)) with ((t', Resize q) :: resize_events rs).
    cbn [app run foldl].
    destruct (resize_rearms w t' q Hl ltac:(lia)
                ltac:(right; exists (t + 300)%nat; split; [done | lia]))
      as (Harm' & Hclock' & Hw' & Hl' & Hcur' & Hcb' & Hnot').
    cbn zeta in *.
    specialize (IH (step w (t', Resize q)) t' prev Harm' Hclock' Hl'
                  ltac:(by rewrite Hcur') Hco).
    rewrite Hw', Hcb', Hnot' in IH. exact IH.
Qed.

(** A window of resize events and nothing else.  From a loaded page with no
    timer pending, whose remembered breakpoint is [prev], a resize followed by
    any number of resizes each less than 300 ms after the one before, then
    300 ms of silence: if the last width has the breakpoint [prev] nobody is
    told, otherwise every registered callback is called once, in registration
    order, with the new breakpoint. *)
Lemma resize_window_notifies (w : World) (prev : Breakpoint)
    (r : nat * Q) (rs : list (nat * Q)) :
  timers w = [] → resizeListeners w = 1%nat →
  _currentBreakpoint (rcm w) = Some prev →
  (clock w ≤ r.1)%nat → coalesced r.1 rs →
  notified
    (run (resize_events (r :: rs) ++ [(((List.last rs r).1 + 300)%nat, Idle)]) w)
  = notified w ++
      (if bool_decide (name prev = name (getBreakpoint (List.last rs r).2))
       then []
       else (λ callback, (callback, getBreakpoint (List.last rs r).2))
              <$> _resizeCallbacks (rcm w)).
Proof.
  intros Htm Hl Hcur Hclock Hco. destruct r as [t q].
  change (resize_events ((t, q) :: rs)) with ((t, Resize q) :: resize_events rs).
  cbn [app run foldl].
  destruct (resize_rearms w t q Hl Hclock ltac:(by left))
    as (Harm' & Hclock' & Hw' & Hl' & Hcur' & Hcb' & Hnot').
  cbn zeta in *. cbn [fst] in Hco.
  pose proof (window_settles rs (step w (t, Resize q)) t prev Harm' Hclock' Hl'
                ltac:(by rewrite Hcur') Hco) as H.
  rewrite Hw', Hcb', Hnot' in H. exact H.
Qed.

End Debounce.


(** ** MathUtils: memoised positions (C7, C2) *)

Section PositionCache.
Import MathUtils.

Lemma code_angle (index itemCount : Z) :
  (IZR index / IZR itemCount * PI * 2)%R = item_angle index itemCount.
Proof. unfold item_angle, Rdiv. ring. Qed.

Lemma circle_point_key (c1 c2 : Config.t) (theta : R) :
  configKey c1 = configKey c2 → circle_point c1 theta = circle_point c2 theta.
Proof.
  unfold configKey, circle_point. intros [= Hx Hy Hr Hs]. by rewrite Hx, Hy, Hr.
Qed.

Lemma anchor_point_key (c1 c2 : Config.t) (theta : R) :
  configKey c1 = configKey c2 → anchor_point c1 theta = anchor_point c2 theta.
Proof.
  intros H. unfold anchor_point. rewrite (circle_point_key c1 c2 theta H).
  unfold configKey in H. injection H as _ _ _ Hs. by rewrite Hs.
Qed.

Lemma coherent_initial : coherent initial.
Proof. reflexivity. Qed.

(** A fingerprint mismatch empties the whole cache; a match leaves it alone. *)
Lemma clearCacheIfNeeded_spec (config : Config.t) (st : t) :
  _lastConfig (_clearCacheIfNeeded config st) = Some (configKey config)
  ∧ (_lastConfig st ≠ Some (configKey config) →
     _positionCache (_clearCacheIfNeeded config st) = ∅)
  ∧ (_lastConfig st = Some (configKey config) → _clearCacheIfNeeded config st = st).
Proof.
  unfold _clearCacheIfNeeded. case_bool_decide as H; cbn.
  - split; [done|]. split; [by intros []|done].
  - split; [done|]. split; [done|]. intros H'. by destruct H.
Qed.

Lemma coherent_clearCacheIfNeeded (config : Config.t) (st : t) :
  coherent st → coherent (_clearCacheIfNeeded config st).
Proof.
  intros Hst. unfold _clearCacheIfNeeded. case_bool_decide; [done|].
  unfold coherent. cbn. intros ????? _ Hlook. by rewrite lookup_empty in Hlook.
Qed.

Lemma coherent_insert (config : Config.t) (st : t) (kind : string) (index n : Z)
    (p : Point.t) :
  coherent st → _lastConfig st = Some (configKey config) →
  (kind = "pos"%string ∧ p = circle_point config (item_angle index n))
  ∨ (kind = "elem"%string ∧ p = anchor_point config (item_angle index n)) →
  coherent {| _positionCache := <[(kind, index, n) := p]> (_positionCache st);
              _lastConfig := _lastConfig st |}.
Proof.
  intros Hst Hkey Hp. unfold coherent in *. cbn. rewrite Hkey in *.
  intros config' kind' index' n' p' Hk Hlook.
  destruct (decide ((kind, index, n) = (kind', index', n'))) as [[= <- <- <-]|Hne].
  - rewrite lookup_insert_eq in Hlook. injection Hlook as <-.
    rewrite (circle_point_key config' config), (anchor_point_key config' config) by done.
    done.
  - rewrite lookup_insert_ne in Hlook by done. eauto.
Qed.

Lemma getItemPosition_coherent (config : Config.t) (index : Z)
    (totalItems : option Z) (st : t) :
  coherent st →
  (getItemPosition config index totalItems st).1
    = circle_point config (item_angle index (or_itemCount totalItems config))
  ∧ coherent (getItemPosition config index totalItems st).2
  ∧ _lastConfig (getItemPosition config index totalItems st).2
    = Some (configKey config).
Proof.
  intros Hst. unfold getItemPosition.
  pose proof (coherent_clearCacheIfNeeded config st Hst) as Hc.
  destruct (clearCacheIfNeeded_spec config st) as (Hkey & _ & _).
  set (st1 := _clearCacheIfNeeded config st) in *.
  set (n := or_itemCount totalItems config).
  destruct (_positionCache st1 !! ("pos"%string, index, n)) as [p|] eqn:Hlook; cbn.
  - split; [|done]. unfold coherent in Hc. rewrite Hkey in Hc.
    destruct (Hc config _ _ _ _ eq_refl Hlook) as [[_ ->]|[[=] _]]. done.
  - rewrite code_angle. split; [done|]. split; [|done].
    apply (coherent_insert config); auto.
Qed.

Lemma or_itemCount_idem (totalItems : option Z) (config : Config.t) :
  or_itemCount (Some (or_itemCount totalItems config)) config
  = or_itemCount totalItems config.
Proof.
  unfold or_itemCount. destruct totalItems as [n|].
  - destruct (n =? 0) eqn:Hn; [|by rewrite Hn].
    by destruct (Config.itemCount config =? 0).
  - by destruct (Config.itemCount config =? 0).
Qed.

Lemma getItemElementPosition_coherent (config : Config.t) (index : Z)
    (totalItems : option Z) (st : t) :
  coherent st →
  (getItemElementPosition config index totalItems st).1
    = anchor_point config (item_angle index (or_itemCount totalItems config))
  ∧ coherent (getItemElementPosition config index totalItems st).2
  ∧ _lastConfig (getItemElementPosition config index totalItems st).2
    = Some (configKey config).
Proof.
  intros Hst. unfold getItemElementPosition.
  pose proof (coherent_clearCacheIfNeeded config st Hst) as Hc.
  destruct (clearCacheIfNeeded_spec config st) as (Hkey & _ & _).
  set (st1 := _clearCacheIfNeeded config st) in *.
  set (n := or_itemCount totalItems config).
  destruct (_positionCache st1 !! ("elem"%string, index, n)) as [p|] eqn:Hlook; cbn.
  - split; [|done]. unfold coherent in Hc. rewrite Hkey in Hc.
    destruct (Hc config _ _ _ _ eq_refl Hlook) as [[[=] _]|[_ ->]]. done.
  - destruct (getItemPosition_coherent config index (Some n) st1 Hc)
      as (Hp & Hc2 & Hkey2).
    destruct (getItemPosition config index (Some n) st1) as [centerPos st2].
    cbn [fst snd] in *. subst centerPos. unfold n in *.
    rewrite or_itemCount_idem.
    split; [done|]. split; [|done].
    apply (coherent_insert config); auto.
Qed.

Lemma precomputePositions_coherent (config : Config.t) (totalItems : option Z)
    (st : t) :
  coherent st → coherent (precomputePositions config totalItems st).
Proof.
  unfold precomputePositions, for_range.
  generalize (seq 0 (Z.to_nat (or_itemCount totalItems config) - 0)). intros l.
  revert st. induction l as [|i l IH]; intros st Hst; [done|].
  cbn [foldl]. apply IH.
  apply getItemElementPosition_coherent, getItemPosition_coherent, Hst.
Qed.

Lemma call_coherent (config : Config.t) (c : Call) (st : t) :
  coherent st →
  (call config c st).1 = recompute config c ∧ coherent (call config c st).2.
Proof.
  intros Hst. destruct c as [index n|index n|n|]; cbn.
  - destruct (getItemPosition_coherent config index n st Hst) as (Hp & Hc & _).
    destruct (getItemPosition config index n st). cbn in *. by subst.
  - destruct (getItemElementPosition_coherent config index n st Hst) as (Hp & Hc & _).
    destruct (getItemElementPosition config index n st). cbn in *. by subst.
  - split; [done|]. by apply precomputePositions_coherent.
  - split; [done|]. apply coherent_initial.
Qed.

Lemma calls_coherent (cs : list (Config.t * Call)) (st : t) :
  coherent st →
  (calls cs st).1 = (λ cc, recompute cc.1 cc.2) <$> cs ∧ coherent (calls cs st).2.
Proof.
  revert st. induction cs as [|[config c] cs IH]; intros st Hst; [done|].
  cbn [calls]. destruct (call_coherent config c st Hst) as (Hr & Hc).
  destruct (call config c st) as [r st1]. cbn in Hr, Hc.
  destruct (IH st1 Hc) as (Hrs & Hc2).
  destruct (calls cs st1) as [rs st2]. cbn in *. by subst.
Qed.

(** C7.  In every sequence of calls to the class, each made under whatever
    configuration is active at that moment, [getItemPosition] and
    [getItemElementPosition] return what the position formula gives under that
    configuration; and a call made under a configuration whose fingerprint is
    not the remembered one starts by emptying the whole cache and remembering
    the new fingerprint. *)
Theorem positions_follow_active_config :
  (∀ cs : list (Config.t * Call),
     (calls cs initial).1 = (λ cc, recompute cc.1 cc.2) <$> cs)
  ∧ (∀ (cs : list (Config.t * Call)) (config : Config.t),
       let st := (calls cs initial).2 in
       _lastConfig (_clearCacheIfNeeded config st) = Some (configKey config)
       ∧ (_lastConfig st ≠ Some (configKey config) →
          _positionCache (_clearCacheIfNeeded config st) = ∅)).
Proof.
  split.
  - intros cs. apply calls_coherent, coherent_initial.
  - intros cs config st.
    destruct (clearCacheIfNeeded_spec config st) as (H1 & H2 & _). done.
Qed.

End PositionCache.

Section ItemPosition.
Import MathUtils ResponsiveConfigManager.

(** C2 as stated fails: [getItemPosition] has no index check; asked for index
    8 of 8 items on the desktop layout it returns a point and throws nothing. *)
Lemma getItemPosition_out_of_range_returns :
  ¬ (0 ≤ 8 < 8)
  ∧ getItemPosition_call (_calculateConfig DESKTOP 8) 8 (Some 8) initial
    = Returns (circle_point (_calculateConfig DESKTOP 8) (item_angle 8 8))
  ∧ getItemPosition_call (_calculateConfig DESKTOP 8) 8 (Some 8) initial
    ≠ Throws "InvalidIndex".
Proof.
  split; [lia|]. split; [|discriminate].
  unfold getItemPosition_call.
  destruct (getItemPosition_coherent (_calculateConfig DESKTOP 8) 8 (Some 8)
              initial coherent_initial) as (H & _). by rewrite H.
Qed.

(** C2, amended.  Under every configuration and after any history of calls,
    for a positive [totalItems] and every integer [index], inside [[0,
    totalItems)] or outside it, [getItemPosition(index, totalItems)] returns
    the point [(centerX + radius cos theta, centerY + radius sin theta)] with
    [theta = 2 pi index / totalItems]; it does not fail. *)
Theorem getItemPosition_returns_circle_point
    (history : list (Config.t * Call)) (config : Config.t) (index totalItems : Z) :
  0 < totalItems →
  getItemPosition_call config index (Some totalItems) (calls history initial).2
  = Returns (circle_point config (item_angle index totalItems)).
Proof.
  intros Hpos. unfold getItemPosition_call.
  destruct (calls_coherent history initial coherent_initial) as (_ & Hc).
  destruct (getItemPosition_coherent config index (Some totalItems) _ Hc) as (H & _).
  rewrite H. unfold or_itemCount.
  assert ((totalItems =? 0) = false) as -> by (apply Z.eqb_neq; lia). done.
Qed.

(** C2, amended, at index -3 of 8 on the desktop layout, after a call made on
    the mobile layout. *)
Lemma getItemPosition_returns_circle_point_witness :
  getItemPosition_call (_calculateConfig DESKTOP 8) (-3) (Some 8)
    (calls [(_calculateConfig MOBILE 8, GetItemPosition (-3) (Some 8))] initial).2
  = Returns (circle_point (_calculateConfig DESKTOP 8) (item_angle (-3) 8)).
Proof.
  apply (getItemPosition_returns_circle_point
           [(_calculateConfig MOBILE 8, GetItemPosition (-3) (Some 8))]
           (_calculateConfig DESKTOP 8) (-3) 8).
  lia.
Defined.

End ItemPosition.

(** ** MathUtils: the control point of an arc (C8) *)

Section ArcControlPoint.
Import MathUtils.

Lemma sqrt_sum_squares_eq_0 (a b : R) :
  sqrt (a * a + b * b) = 0%R ↔ a = 0%R ∧ b = 0%R.
Proof.
  split.
  - intros H. apply sqrt_eq_0 in H; [|nra]. split; nra.
  - intros [-> ->]. rewrite Rmult_0_l, Rplus_0_l. apply sqrt_0.
Qed.




End ArcControlPoint.

(** ** PathManager: what its methods keep true *)

Section PathLines.
Import PathManager.

Lemma createSingleLine_spec (config : Config.t) (index1 index2 : Z) (w : World)
    (children : list PathElement) :
  isEnabled (manager w) = true → connectionSvg (manager w) = Some children →
  ∃ lineData,
    connectionLines (manager (createSingleLine config index1 index2 w))
      = connectionLines (manager w) ++ [lineData]
    ∧ made_for config {| GraphManager.from := index1; GraphManager.to := index2 |} lineData
    ∧ id (element lineData) = created w
    ∧ created (createSingleLine config index1 index2 w) = S (created w)
    ∧ isEnabled (manager (createSingleLine config index1 index2 w)) = true
    ∧ connectionSvg (manager (createSingleLine config index1 index2 w))
      = Some (children ++ [element lineData]).
Proof.
  intros Hen Hsvg. unfold createSingleLine. rewrite Hen, Hsvg. cbn [negb].
  destruct (MathUtils.getItemPosition config index1 _ (math w)) as [pos1 m1].
  destruct (MathUtils.getItemPosition config index2 _ m1) as [pos2 m2].
  eexists. cbn [manager connectionLines created isEnabled connectionSvg].
  split; [reflexivity|]. split; [|done].
  unfold made_for. cbn. repeat split.
  by destruct (MathUtils.isDiagonalPair config index1 index2 _).
Qed.

Lemma createConnectionLines_foldl (config : Config.t)
    (connections : list GraphManager.Connection) (w : World) :
  isEnabled (manager w) = true →
  createConnectionLines config connections w
  = foldl (λ w connection,
             createSingleLine config (GraphManager.from connection)
               (GraphManager.to connection) w) w connections.
Proof.
  intros Hen. unfold createConnectionLines. rewrite Hen. by destruct connections.
Qed.

(** [createConnectionLines] appends one line per connection, in order, each
    with a newly created element. *)
Lemma createConnectionLines_spec (config : Config.t)
    (connections : list GraphManager.Connection) :
  ∀ (w : World) (children : list PathElement),
    isEnabled (manager w) = true → connectionSvg (manager w) = Some children →
    ∃ news,
      connectionLines (manager (createConnectionLines config connections w))
        = connectionLines (manager w) ++ news
      ∧ Forall2 (made_for config) connections news
      ∧ (λ lineData, id (element lineData)) <$> news
        = seq (created w) (length connections)
      ∧ created (createConnectionLines config connections w)
        = (created w + length connections)%nat
      ∧ isEnabled (manager (createConnectionLines config connections w)) = true
      ∧ is_Some (connectionSvg (manager (createConnectionLines config connections w))).
Proof.
  induction connections as [|[i j] cs IH]; intros w children Hen Hsvg.
  - exists []. rewrite createConnectionLines_foldl by done. cbn.
    rewrite app_nil_r, Nat.add_0_r, Hsvg. eauto 10.
  - rewrite createConnectionLines_foldl by done. cbn [foldl GraphManager.from GraphManager.to].
    destruct (createSingleLine_spec config i j w children Hen Hsvg)
      as (l & Hl & Hmade & Hid & Hcr & Hen' & Hsvg').
    destruct (IH _ _ Hen' Hsvg') as (news & Hn & Hall & Hids & Hcr2 & Hen2 & Hsvg2).
    rewrite createConnectionLines_foldl in Hn, Hcr2, Hen2, Hsvg2 by done.
    exists (l :: news). rewrite Hn, Hl, <- app_assoc. split; [done|].
    split; [by constructor|]. split.
    { rewrite fmap_cons, Hids, Hid, Hcr. done. }
    split; [rewrite Hcr2, Hcr; cbn; lia|]. done.
Qed.

Lemma valid_next_state (s : Z) : valid_state (next_state s).
Proof.
  unfold next_state, valid_state.
  repeat (destruct (_ =? _)); auto.
Qed.

Lemma ids_toggle_found (pathElement : PathElement) (lines : list LineData) :
  (λ lineData, id (element lineData)) <$> toggle_found pathElement lines
  = (λ lineData, id (element lineData)) <$> lines.
Proof.
  induction lines as [|l lines IH]; [done|]. cbn.
  destruct (Nat.eqb _ _); cbn; [done | by rewrite IH].
Qed.

Lemma valid_toggle_found (pathElement : PathElement) (lines : list LineData) :
  Forall (λ lineData, valid_state (state lineData)) lines →
  Forall (λ lineData, valid_state (state lineData)) (toggle_found pathElement lines).
Proof.
  induction 1 as [|l lines Hl Hls IH]; [constructor|]. cbn.
  destruct (Nat.eqb _ _); constructor; auto. cbn. apply valid_next_state.
Qed.

(** With distinct elements, toggling the element of the line at position [k]
    changes that line and no other. *)
Lemma toggle_found_lookup (lines : list LineData) :
  ∀ (k : nat) (lineData : LineData),
    NoDup ((λ lineData, id (element lineData)) <$> lines) →
    lines !! k = Some lineData →
    toggle_found (element lineData) lines
    = <[k := set_state lineData (next_state (state lineData))]> lines.
Proof.
  induction lines as [|l lines IH]; intros k lineData Hnd Hk; [done|].
  rewrite fmap_cons in Hnd. apply NoDup_cons in Hnd as [Hnotin Hnd].
  destruct k as [|k]; cbn in Hk |- *.
  - injection Hk as ->. by rewrite Nat.eqb_refl.
  - destruct (Nat.eqb (id (element l)) (id (element lineData))) eqn:Heq.
    + apply Nat.eqb_eq in Heq. exfalso. apply Hnotin. rewrite Heq.
      apply list_elem_of_fmap. exists lineData. split; [done|].
      by eapply list_elem_of_lookup_2.
    + f_equal. by apply IH.
Qed.

Lemma currentStates_foldl_notin (lines : list LineData) (key : Z * Z)
    (states : gmap (Z * Z) Z) :
  (∀ l, l ∈ lines → (from l, to l) ≠ key) →
  foldl (λ states lineData, <[(from lineData, to lineData) := state lineData]> states)
        states lines !! key = states !! key.
Proof.
  revert states. induction lines as [|l lines IH]; intros states H; [done|].
  cbn. rewrite IH by (intros; apply H; by right).
  apply lookup_insert_ne, H. by left.
Qed.

Lemma currentStates_foldl_Some (lines : list LineData) (key : Z * Z) (s : Z)
    (states : gmap (Z * Z) Z) :
  foldl (λ states lineData, <[(from lineData, to lineData) := state lineData]> states)
        states lines !! key = Some s →
  states !! key = Some s ∨ ∃ l, l ∈ lines ∧ (from l, to l) = key ∧ state l = s.
Proof.
  revert states. induction lines as [|l lines IH]; intros states H; [by left|].
  cbn in H. apply IH in H as [H|(l' & Hin & Hk & Hs)].
  - destruct (decide ((from l, to l) = key)) as [<-|Hne].
    + rewrite lookup_insert_eq in H. injection H as <-.
      right. exists l. split; [by left | done].
    + rewrite lookup_insert_ne in H by done. by left.
  - right. exists l'. split; [by right | done].
Qed.

(** The state remembered for a key is that of the last line with the key. *)
Lemma currentStates_last (before after : list LineData) (lineData : LineData) :
  (∀ l, l ∈ after → (from l, to l) ≠ (from lineData, to lineData)) →
  currentStates (before ++ lineData :: after) !! (from lineData, to lineData)
  = Some (state lineData).
Proof.
  intros H. unfold currentStates. rewrite foldl_app. cbn [foldl].
  rewrite currentStates_foldl_notin by done. apply lookup_insert_eq.
Qed.

Lemma currentStates_none (lines : list LineData) (key : Z * Z) :
  (∀ l, l ∈ lines → (from l, to l) ≠ key) → currentStates lines !! key = None.
Proof.
  intros H. unfold currentStates. by rewrite currentStates_foldl_notin.
Qed.

Lemma currentStates_valid (lines : list LineData) (key : Z * Z) (s : Z) :
  Forall (λ lineData, valid_state (state lineData)) lines →
  currentStates lines !! key = Some s → valid_state s.
Proof.
  intros Hv H. apply currentStates_foldl_Some in H as [H|(l & Hin & _ & <-)].
  - by rewrite lookup_empty in H.
  - by eapply (proj1 (Forall_forall _ _) Hv).
Qed.

Lemma createSingleLine_no_svg (config : Config.t) (index1 index2 : Z) (w : World) :
  connectionSvg (manager w) = None → createSingleLine config index1 index2 w = w.
Proof.
  intros H. unfold createSingleLine. rewrite H. by destruct (negb _).
Qed.

Lemma createConnectionLines_no_svg (config : Config.t)
    (connections : list GraphManager.Connection) (w : World) :
  connectionSvg (manager w) = None → createConnectionLines config connections w = w.
Proof.
  intros H. unfold createConnectionLines. destruct (negb _); [done|].
  destruct connections as [|c cs]; [done|]. generalize (c :: cs). intros l.
  induction l as [|a l IH]; [done|]. cbn. by rewrite createSingleLine_no_svg.
Qed.

Lemma well_formed_createConnectionLines (config : Config.t)
    (connections : list GraphManager.Connection) (w : World) :
  well_formed w → well_formed (createConnectionLines config connections w).
Proof.
  intros (Hv & Hnd & Hlt).
  destruct (isEnabled (manager w)) eqn:Hen.
  2:{ unfold createConnectionLines. by rewrite Hen. }
  destruct (connectionSvg (manager w)) as [children|] eqn:Hsvg.
  2:{ by rewrite createConnectionLines_no_svg. }
  destruct (createConnectionLines_spec config connections w children Hen Hsvg)
    as (news & Hn & Hall & Hids & Hcr & _ & _).
  unfold well_formed. rewrite Hn, Hcr. split; [|split].
  - apply Forall_app. split; [done|].
    clear -Hall. induction Hall as [|c l cs ls (_ & _ & Hs & _) _ IH]; constructor; auto.
    rewrite Hs. by left.
  - rewrite fmap_app, Hids. apply NoDup_app. split; [done|]. split; [|apply NoDup_seq].
    intros i Hi Hi'. apply elem_of_seq in Hi'.
    apply list_elem_of_fmap in Hi as (l & -> & Hl).
    pose proof (proj1 (Forall_forall _ _) Hlt l Hl) as Hl'. cbn in Hl'. lia.
  - apply Forall_app. split.
    + eapply Forall_impl; [exact Hlt|]. cbn. intros; lia.
    + apply Forall_forall. intros l Hl.
      assert (id (element l) ∈ seq (created w) (length connections)) as Hin.
      { rewrite <- Hids. apply list_elem_of_fmap. eauto. }
      apply elem_of_seq in Hin. lia.
Qed.

Lemma ids_restore_state (states : gmap (Z * Z) Z) (lines : list LineData) :
  (λ lineData, id (element lineData)) <$> (restore_state states <$> lines)
  = (λ lineData, id (element lineData)) <$> lines.
Proof.
  rewrite <- list_fmap_compose. apply list_fmap_ext. intros _ l _.
  cbn. unfold restore_state. by destruct (states !! _).
Qed.

Lemma well_formed_rebuildAllPaths (config : Config.t) (w : World) :
  well_formed w → well_formed (_rebuildAllPaths config w).
Proof.
  intros Hw. unfold _rebuildAllPaths. destruct (negb _); [done|].
  set (w1 := {| math := math w; created := created w;
                manager := clearConnections (manager w) |}).
  assert (well_formed w1) as Hw1.
  { unfold well_formed. cbn. repeat split; constructor. }
  pose proof (well_formed_createConnectionLines config
                (complete_connections (Config.itemCount config)) w1 Hw1)
    as (Hv & Hnd & Hlt).
  unfold well_formed. cbn [manager connectionLines created].
  split; [|split].
  - apply Forall_fmap. eapply Forall_impl; [exact Hv|]. cbn. intros l Hl.
    unfold restore_state.
    destruct (currentStates _ !! _) as [s|] eqn:Hs; [|done]. cbn.
    destruct Hw as (Hvw & _). exact (currentStates_valid _ _ _ Hvw Hs).
  - by rewrite ids_restore_state.
  - apply Forall_fmap. eapply Forall_impl; [exact Hlt|]. cbn. intros l Hl.
    unfold restore_state. by destruct (currentStates _ !! _).
Qed.

(** Every state a path manager can reach is well formed. *)
Lemma well_formed_run (requests : list (Config.t * Op))
    (connectionSvg : option (list PathElement)) (m : MathUtils.t) :
  well_formed (run requests (start connectionSvg m)).
Proof.
  unfold run.
  assert (well_formed (start connectionSvg m)) as H0.
  { unfold well_formed. cbn. repeat split; constructor. }
  revert H0. generalize (start connectionSvg m).
  induction requests as [|[config op] requests IH]; intros w Hw; [done|].
  cbn [foldl]. apply IH. unfold perform. cbn [fst snd].
  destruct op as [cs|pathElement| | |].
  - by apply well_formed_createConnectionLines.
  - destruct Hw as (Hv & Hnd & Hlt). unfold well_formed. cbn.
    split; [by apply valid_toggle_found|]. split; [by rewrite ids_toggle_found|].
    apply Forall_forall. intros l Hl.
    assert (id (element l) ∈ (λ lineData, id (element lineData))
              <$> connectionLines (manager w)) as Hin.
    { rewrite <- (ids_toggle_found pathElement). apply list_elem_of_fmap. eauto. }
    apply list_elem_of_fmap in Hin as (l' & -> & Hl').
    exact (proj1 (Forall_forall _ _) Hlt l' Hl').
  - destruct Hw as (Hv & Hnd & Hlt). unfold resetAllPaths.
    destruct (negb _); [done|]. unfold well_formed. cbn.
    split; [|split].
    + apply Forall_fmap, Forall_forall. intros l _. cbn. by left.
    + by rewrite <- list_fmap_compose.
    + by apply Forall_fmap.
  - by apply well_formed_rebuildAllPaths.
  - unfold well_formed. cbn. repeat split; constructor.
Qed.

End PathLines.

(** ** PathManager: the three-state cycle (C3) *)

Section ToggleCycle.
Import PathManager.

Lemma toggle_found_insert (lines : list LineData) (k : nat)
    (lineData lineData' : LineData) :
  NoDup ((λ lineData, id (element lineData)) <$> lines) →
  lines !! k = Some lineData →
  element lineData' = element lineData →
  toggle_found (element lineData) (<[k := lineData']> lines)
  = <[k := set_state lineData' (next_state (state lineData'))]> lines.
Proof.
  intros Hnd Hk He.
  assert (k < length lines)%nat as Hlen by (by eapply lookup_lt_Some).
  rewrite <- He.
  rewrite (toggle_found_lookup (<[k := lineData']> lines) k lineData').
  - apply list_insert_insert_eq.
  - rewrite list_fmap_insert, list_insert_id; [done|].
    by rewrite list_lookup_fmap, Hk, He.
  - by apply list_lookup_insert_eq.
Qed.

Lemma next_state_thrice (s : Z) :
  valid_state s → next_state (next_state (next_state s)) = s.
Proof. intros [->|[->| ->]]; reflexivity. Qed.

(** C3.  In every state a path manager can reach, for the line at any
    position [k]: its state is one of the three; one [togglePathState] on its
    element moves that line one step along TRANSPARENT -> PINK_SOLID ->
    GREEN_SOLID -> TRANSPARENT and leaves every other line as it was; and
    three toggles in a row bring all lines back to where they were. *)
Theorem toggle_cycles (connectionSvg : option (list PathElement))
    (m : MathUtils.t) (requests : list (Config.t * Op))
    (k : nat) (lineData : LineData) :
  connectionLines (manager (run requests (start connectionSvg m))) !! k
    = Some lineData →
  valid_state (state lineData)
  ∧ connectionLines
      (togglePathState (element lineData)
         (manager (run requests (start connectionSvg m))))
    = <[k := set_state lineData (next_state (state lineData))]>
        (connectionLines (manager (run requests (start connectionSvg m))))
  ∧ (state lineData = PATH_STATES.TRANSPARENT →
     next_state (state lineData) = PATH_STATES.PINK_SOLID)
  ∧ (state lineData = PATH_STATES.PINK_SOLID →
     next_state (state lineData) = PATH_STATES.GREEN_SOLID)
  ∧ (state lineData = PATH_STATES.GREEN_SOLID →
     next_state (state lineData) = PATH_STATES.TRANSPARENT)
  ∧ connectionLines
      (togglePathState (element lineData)
         (togglePathState (element lineData)
            (togglePathState (element lineData)
               (manager (run requests (start connectionSvg m))))))
    = connectionLines (manager (run requests (start connectionSvg m))).
Proof.
  intros Hk.
  destruct (well_formed_run requests connectionSvg m) as (Hv & Hnd & _).
  unfold togglePathState. cbn [connectionLines].
  set (lines := connectionLines (manager (run requests (start connectionSvg m)))) in *.
  assert (valid_state (state lineData)) as Hvalid
    by exact (Forall_lookup_1 _ _ _ _ Hv Hk).
  split; [done|]. split; [by apply toggle_found_lookup|].
  split; [by intros ->|]. split; [by intros ->|]. split; [by intros ->|].
  rewrite (toggle_found_lookup lines k lineData Hnd Hk).
  rewrite !(toggle_found_insert lines k lineData) by done.
  cbn [state set_state element from to].
  rewrite next_state_thrice by done.
  apply list_insert_id. rewrite Hk. by destruct lineData.
Qed.

(** C3 after three lines are drawn on the desktop layout and the second is
    toggled once: that line is PINK_SOLID, one more toggle makes it GREEN_SOLID
    and three bring every line back. *)
Lemma toggle_cycles_witness :
  ∃ lineData,
    connectionLines (manager two_toggled_world) !! 1%nat = Some lineData
    ∧ state lineData = PATH_STATES.PINK_SOLID
    ∧ connectionLines (togglePathState (element lineData) (manager two_toggled_world))
      = <[1%nat := set_state lineData PATH_STATES.GREEN_SOLID]>
          (connectionLines (manager two_toggled_world))
    ∧ connectionLines
        (togglePathState (element lineData)
           (togglePathState (element lineData)
              (togglePathState (element lineData) (manager two_toggled_world))))
      = connectionLines (manager two_toggled_world).
Proof.
  eexists. split; [reflexivity|].
  destruct (toggle_cycles (Some []) MathUtils.initial two_toggled_requests 1%nat _ eq_refl)
    as (_ & Hone & _ & Hpink & _ & Hthree).
  split; [reflexivity|]. split; [|exact Hthree].
  rewrite <- (Hpink eq_refl). exact Hone.
Defined.

End ToggleCycle.


(** ** PathManager: rebuilding the lines (C4) *)

Section Rebuild.
Import PathManager.

Lemma complete_connections_upper_pairs (itemCount : Z) :
  complete_connections itemCount
  = GraphManager.connection_of <$> GraphManager.upper_pairs (Z.to_nat itemCount).
Proof.
  unfold complete_connections, GraphManager.upper_pairs, for_range.
  rewrite Nat.sub_0_r, fmap_bind.
  rewrite <- (app_nil_l (seq 0 _ ≫= _)), <- foldl_push.
  apply foldl_ext_in. intros acc i _.
  rewrite <- list_fmap_compose.
  generalize (seq (i + 1) (Z.to_nat itemCount - (i + 1))). intros l.
  revert acc. induction l as [|j l IH]; intros acc; cbn [foldl fmap list_fmap].
  - by rewrite app_nil_r.
  - rewrite IH, <- app_assoc. done.
Qed.

Lemma made_for_keys (config : Config.t) (connections : list GraphManager.Connection)
    (news : list LineData) :
  Forall2 (made_for config) connections news →
  key <$> news
  = (λ c, (GraphManager.from c, GraphManager.to c)) <$> connections
  ∧ Forall (λ l, state l = PATH_STATES.TRANSPARENT) news.
Proof.
  induction 1 as [|c l cs ls (Hf & Ht & Hs & _) _ [IH1 IH2]]; [done|].
  split; [|by constructor].
  rewrite !fmap_cons, IH1. unfold key. by rewrite Hf, Ht.
Qed.

Lemma rebuild_lines (config : Config.t) (w : World) (children : list PathElement) :
  isEnabled (manager w) = true → connectionSvg (manager w) = Some children →
  ∃ news,
    connectionLines (manager (_rebuildAllPaths config w))
      = restore_state (currentStates (connectionLines (manager w))) <$> news
    ∧ Forall2 (made_for config) (complete_connections (Config.itemCount config)) news.
Proof.
  intros Hen Hsvg. unfold _rebuildAllPaths. rewrite Hen. cbn [negb].
  set (w1 := {| math := math w; created := created w;
                manager := clearConnections (manager w) |}).
  destruct (createConnectionLines_spec config
              (complete_connections (Config.itemCount config)) w1
              (filter (λ e, id e ∉ (λ lineData, id (element lineData))
                                     <$> connectionLines (manager w)) children))
    as (news & Hn & Hall & _).
  { done. }
  { cbn. by rewrite Hsvg. }
  exists news. cbn [manager connectionLines]. by rewrite Hn.
Qed.

Lemma key_restore_state (states : gmap (Z * Z) Z) (l : LineData) :
  key (restore_state states l) = key l.
Proof. unfold restore_state. by destruct (states !! _). Qed.

Lemma NoDup_keys_complete (itemCount : Z) :
  NoDup ((λ c, (GraphManager.from c, GraphManager.to c))
           <$> complete_connections itemCount).
Proof.
  rewrite complete_connections_upper_pairs, <- list_fmap_compose.
  apply NoDup_fmap_2; [|apply NoDup_upper_pairs].
  intros [a b] [c e] [= H1 H2]. apply Nat2Z.inj in H1, H2. by subst.
Qed.

Lemma elem_of_keys_complete (itemCount a b : Z) :
  ((a, b) ∈ (λ c, (GraphManager.from c, GraphManager.to c))
              <$> complete_connections itemCount)
  ↔ 0 ≤ a < b ∧ b < itemCount.
Proof.
  rewrite complete_connections_upper_pairs, <- list_fmap_compose.
  rewrite list_elem_of_fmap. split.
  - intros ([i j] & [= -> ->] & Hin). apply elem_of_upper_pairs in Hin. lia.
  - intros H. exists (Z.to_nat a, Z.to_nat b). split.
    + cbn. f_equal; lia.
    + apply elem_of_upper_pairs. lia.
Qed.

(** C4.  After [_rebuildAllPaths] on an enabled path manager there is exactly
    one line for every pair [0 <= a < b < itemCount] of the configured item
    count, and no other line.  A new line whose key [(from, to)] a line had
    before the rebuild is in the state which that line (the last one with the
    key) was in, and a new line whose key no line had is TRANSPARENT.  So the
    state of every old line whose two ends are still items (the last one of
    its key) is found again on the new line of the same key. *)
Theorem rebuild_restores_states (config : Config.t) (w : World)
    (children : list PathElement) :
  isEnabled (manager w) = true → connectionSvg (manager w) = Some children →
  let lines := connectionLines (manager (_rebuildAllPaths config w)) in
  NoDup (key <$> lines)
  ∧ (∀ a b, ((a, b) ∈ key <$> lines) ↔ 0 ≤ a < b ∧ b < Config.itemCount config)
  ∧ Forall
      (λ new,
         (∀ before old after,
            connectionLines (manager w) = before ++ old :: after →
            key old = key new →
            (∀ l, l ∈ after → key l ≠ key old) →
            state new = state old)
         ∧ ((∀ l, l ∈ connectionLines (manager w) → key l ≠ key new) →
            state new = PATH_STATES.TRANSPARENT))
      lines
  ∧ (∀ before old after,
       connectionLines (manager w) = before ++ old :: after →
       (∀ l, l ∈ after → key l ≠ key old) →
       0 ≤ from old < to old ∧ to old < Config.itemCount config →
       ∃ new, new ∈ lines ∧ key new = key old ∧ state new = state old).
Proof.
  intros Hen Hsvg lines. subst lines.
  destruct (rebuild_lines config w children Hen Hsvg) as (news & -> & Hall).
  destruct (made_for_keys _ _ _ Hall) as (Hkeys & Htr).
  set (states := currentStates (connectionLines (manager w))).
  pose proof (key_restore_state states) as Hkey.
  assert (key <$> (restore_state states <$> news)
          = (λ c, (GraphManager.from c, GraphManager.to c))
              <$> complete_connections (Config.itemCount config)) as Hk.
  { rewrite <- Hkeys, <- list_fmap_compose. apply list_fmap_ext. intros _ l _. apply Hkey. }
  assert (Forall
            (λ new,
               (∀ before old after,
                  connectionLines (manager w) = before ++ old :: after →
                  key old = key new →
                  (∀ l, l ∈ after → key l ≠ key old) →
                  state new = state old)
               ∧ ((∀ l, l ∈ connectionLines (manager w) → key l ≠ key new) →
                  state new = PATH_STATES.TRANSPARENT))
            (restore_state states <$> news)) as Hstates.
  { apply Forall_fmap, Forall_forall. intros l Hl. cbn.
    pose proof (proj1 (Forall_forall _ _) Htr l Hl) as Hs. cbn in Hs.
    rewrite Hkey. split.
    + intros before old after Hold Hk' Hafter.
      assert (states !! (from l, to l) = Some (state old)) as Hlook.
      { unfold states. rewrite Hold. change (from l, to l) with (key l).
        rewrite <- Hk'. by apply currentStates_last. }
      unfold restore_state. by rewrite Hlook.
    + intros Hnone. unfold restore_state, states.
      by rewrite (currentStates_none _ (from l, to l) Hnone). }
  split; [rewrite Hk; apply NoDup_keys_complete|].
  split; [intros a b; rewrite Hk; apply elem_of_keys_complete|].
  split; [exact Hstates|].
  intros before old after Hold Hafter Hends.
  assert (key old ∈ key <$> (restore_state states <$> news)) as Hin.
  { rewrite Hk. unfold key. by apply elem_of_keys_complete. }
  apply list_elem_of_fmap in Hin as (new & Hknew & Hnew).
  exists new. split; [done|]. split; [done|].
  pose proof (proj1 (Forall_forall _ _) Hstates new Hnew) as [Hrest _].
  by apply (Hrest before old after).
Qed.

(** C4 for three lines among eight items, in states PINK_SOLID, GREEN_SOLID
    and PINK_SOLID, when the item count drops to six on the tablet layout. *)
Lemma rebuild_restores_states_witness :
  let config := ResponsiveConfigManager._calculateConfig ResponsiveConfigManager.TABLET 6 in
  let w := three_lines_world in
  let lines := connectionLines (manager (_rebuildAllPaths config w)) in
  NoDup (key <$> lines)
  ∧ (∀ a b, ((a, b) ∈ key <$> lines) ↔ 0 ≤ a < b ∧ b < Config.itemCount config)
  ∧ Forall
      (λ new,
         (∀ before old after,
            connectionLines (manager w) = before ++ old :: after →
            key old = key new →
            (∀ l, l ∈ after → key l ≠ key old) →
            state new = state old)
         ∧ ((∀ l, l ∈ connectionLines (manager w) → key l ≠ key new) →
            state new = PATH_STATES.TRANSPARENT))
      lines
  ∧ (∀ before old after,
       connectionLines (manager w) = before ++ old :: after →
       (∀ l, l ∈ after → key l ≠ key old) →
       0 ≤ from old < to old ∧ to old < Config.itemCount config →
       ∃ new, new ∈ lines ∧ key new = key old ∧ state new = state old).
Proof.
  exact (rebuild_restores_states
           (ResponsiveConfigManager._calculateConfig ResponsiveConfigManager.TABLET 6)
           three_lines_world
           (element <$> connectionLines (manager three_lines_world))
           eq_refl eq_refl).
Defined.

(** The scenario of the specification: after the rebuild for six items there
    are fifteen lines, the line (1,3) is still GREEN_SOLID and there is no line
    (1,7). *)
Example rebuild_eight_to_six :
  let w' := _rebuildAllPaths
              (ResponsiveConfigManager._calculateConfig ResponsiveConfigManager.TABLET 6)
              three_lines_world in
  length (connectionLines (manager w')) = 15%nat
  ∧ ((1, 7) ∉ key <$> connectionLines (manager w'))
  ∧ ∀ new, new ∈ connectionLines (manager w') → key new = (1, 3) →
           state new = PATH_STATES.GREEN_SOLID.
Proof.
  destruct (rebuild_lines
              (ResponsiveConfigManager._calculateConfig ResponsiveConfigManager.TABLET 6)
              three_lines_world
              (element <$> connectionLines (manager three_lines_world))
              eq_refl eq_refl) as (news & Hnews & Hall).
  destruct (made_for_keys _ _ _ Hall) as (Hkeys & _).
  cbn zeta. rewrite Hnews.
  assert (key <$> (restore_state (currentStates (connectionLines (manager three_lines_world)))
                     <$> news) = key <$> news) as Hk.
  { rewrite <- list_fmap_compose. apply list_fmap_ext. intros _ l _.
    apply key_restore_state. }
  split; [|split].
  - rewrite <- (length_fmap key), Hk, Hkeys. vm_compute. reflexivity.
  - rewrite Hk, Hkeys. vm_compute. intros H.
    repeat (apply elem_of_cons in H as [H|H]; [discriminate H|]).
    by apply elem_of_nil in H.
  - intros new Hnew Hkey. apply list_elem_of_fmap in Hnew as (l & -> & _).
    rewrite key_restore_state in Hkey. unfold key in Hkey.
    unfold restore_state. rewrite Hkey. reflexivity.
Qed.

End Rebuild.

(** ** Opposite pairs and straight lines (C9) *)

Section OppositePairs.
Import PathManager.

Lemma isDiagonalPair_iff (config : Config.t) (a b N : Z) :
  N ≠ 0 →
  MathUtils.isDiagonalPair config a b (Some N) = true
  ↔ Z.even N = true ∧ Z.abs (a - b) = N / 2.
Proof.
  intros HN. unfold MathUtils.isDiagonalPair, MathUtils.or_itemCount.
  assert ((N =? 0) = false) as -> by (by apply Z.eqb_neq).
  rewrite andb_true_iff, !Z.eqb_eq, Z.even_spec.
  pose proof (Z.quot_rem' N 2) as Hqr.
  pose proof (Z.rem_bound_abs N 2 ltac:(lia)) as Hb.
  set (q := Z.quot N 2) in *. set (r := Z.rem N 2) in *. clearbody q r.
  split.
  - intros [Hr Hd]. split; [exists q; lia|].
    replace N with (q * 2) by lia. rewrite Z.div_mul by lia. done.
  - intros [[k Hk] Hd].
    replace N with (k * 2) in Hd by lia. rewrite Z.div_mul in Hd by lia.
    split; lia.
Qed.

Lemma even_half (n : nat) :
  Nat.even n = true →
  ∃ k, n = (2 * k)%nat ∧ (n / 2)%nat = k ∧ Z.of_nat n / 2 = Z.of_nat k
       ∧ Z.even (Z.of_nat n) = true.
Proof.
  intros Hev. apply Nat.even_spec in Hev as [k ->]. exists k.
  split; [done|]. split; [by rewrite Nat.mul_comm, Nat.div_mul|]. split.
  - by rewrite Nat2Z.inj_mul, Z.mul_comm, Z.div_mul.
  - apply Z.even_spec. exists (Z.of_nat k). lia.
Qed.

Lemma diagonal_connection_of (config : Config.t) (n i j : nat) :
  (2 ≤ n)%nat → Nat.even n = true → (i < j)%nat →
  diagonal config (Z.of_nat n) (GraphManager.connection_of (i, j))
  ↔ j = (i + n / 2)%nat.
Proof.
  intros Hn Hev Hij. unfold diagonal, GraphManager.connection_of.
  cbn [GraphManager.from GraphManager.to fst snd].
  rewrite isDiagonalPair_iff by lia.
  destruct (even_half n Hev) as (k & Hk & Hh & Hh' & Hev'). rewrite Hh, Hh'.
  split; [intros [_ H]|intros ->; split; [done|]]; lia.
Qed.

(** Among the canonically enumerated edges of an even [n], the opposite pairs
    are the [n/2] edges [{i, i + n/2}]. *)
Lemma diagonal_edges (config : Config.t) (n : nat) :
  (2 ≤ n)%nat → Nat.even n = true →
  filter (diagonal config (Z.of_nat n))
    (GraphManager.connection_of <$> GraphManager.upper_pairs n)
  ≡ₚ GraphManager.connection_of <$> opposite_pairs n.
Proof.
  intros Hn Hev. apply NoDup_Permutation.
  - apply NoDup_filter, NoDup_fmap_2;
      [apply connection_of_inj | apply NoDup_upper_pairs].
  - apply NoDup_fmap_2; [apply connection_of_inj|].
    apply NoDup_fmap_2; [|apply NoDup_seq]. intros a b [= H]. done.
  - intros c. rewrite list_elem_of_filter, !list_elem_of_fmap. split.
    + intros (Hd & [i j] & -> & Hin). apply elem_of_upper_pairs in Hin.
      apply diagonal_connection_of in Hd; [|done|done|lia]. subst j.
      exists (i, (i + n / 2)%nat). split; [done|].
      apply list_elem_of_fmap. exists i. split; [done|].
      apply elem_of_seq. destruct (even_half n Hev) as (k & Hk & Hh & _).
      rewrite Hh in *. lia.
    + intros ([i j] & -> & Hin). apply list_elem_of_fmap in Hin as (i' & Heq & Hi).
      injection Heq as -> ->. apply elem_of_seq in Hi. destruct (even_half n Hev) as (k & Hk & Hh & _).
      split.
      * change (Nat.divmod n 1 0 1).1 with (n / 2)%nat.
        apply diagonal_connection_of; [done|done|rewrite Hh; lia|done].
      * exists (i', (i' + n / 2)%nat). split; [done|].
        apply elem_of_upper_pairs. rewrite Hh. lia.
Qed.

Lemma length_diagonal_edges (config : Config.t) (n : nat) :
  (2 ≤ n)%nat → Nat.even n = true →
  length (filter (diagonal config (Z.of_nat n))
            (GraphManager.connection_of <$> GraphManager.upper_pairs n))
  = (n / 2)%nat.
Proof.
  intros Hn Hev. rewrite (Permutation_length (diagonal_edges config n Hn Hev)).
  unfold opposite_pairs. by rewrite !length_fmap, length_seq.
Qed.

(** Lists related element by element have as many elements with a property
    as with the related one. *)
Lemma length_filter_Forall2 {A B : Type} (R : A → B → Prop)
    (P : A → Prop) (Q : B → Prop)
    `{∀ x, Decision (P x)} `{∀ y, Decision (Q y)} (l : list A) (k : list B) :
  Forall2 R l k → (∀ x y, R x y → P x ↔ Q y) →
  length (filter P l) = length (filter Q k).
Proof.
  intros HF HPQ. induction HF as [|x y l k Hxy _ IH]; [done|].
  rewrite !filter_cons. specialize (HPQ x y Hxy).
  destruct (decide (P x)), (decide (Q y)); cbn; tauto || by rewrite IH.
Qed.

Lemma normalizeVector_is_Some (vector : Point.t) :
  is_Some (MathUtils.normalizeVector vector).
Proof.
  unfold MathUtils.normalizeVector, MathUtils.divide.
  set (length := sqrt _).
  destruct (Req_dec_T length 0) as [H|H]; [by eexists|]. cbn. by eexists.
Qed.

Lemma getArcControlPoint_is_Some (config : Config.t) (p q : Point.t)
    (heightRatio : option R) :
  is_Some (MathUtils.getArcControlPoint config p q heightRatio).
Proof.
  unfold MathUtils.getArcControlPoint.
  destruct (normalizeVector_is_Some
              {| Point.x := (IZR (Config.centerX config)
                             - Point.x (MathUtils.getMidpoint p q))%R;
                 Point.y := (IZR (Config.centerY config)
                             - Point.y (MathUtils.getMidpoint p q))%R |}) as [v ->].
  cbn. by eexists.
Qed.

Lemma or_itemCount_itemCount (config : Config.t) :
  MathUtils.or_itemCount (Some (Config.itemCount config)) config = Config.itemCount config.
Proof.
  unfold MathUtils.or_itemCount.
  destruct (Z.eqb_spec (Config.itemCount config) 0); done.
Qed.

Lemma createSingleLine_path (config : Config.t) (index1 index2 : Z) (w : World)
    (children : list PathElement) :
  MathUtils.coherent (math w) →
  isEnabled (manager w) = true → connectionSvg (manager w) = Some children →
  ∃ lineData,
    connectionLines (manager (createSingleLine config index1 index2 w))
      = connectionLines (manager w) ++ [lineData]
    ∧ drawn_for config {| GraphManager.from := index1; GraphManager.to := index2 |}
        lineData
    ∧ MathUtils.coherent (math (createSingleLine config index1 index2 w)).
Proof.
  intros Hco Hen Hsvg. unfold createSingleLine. rewrite Hen, Hsvg. cbn [negb].
  destruct (getItemPosition_coherent config index1
              (Some (Config.itemCount config)) (math w) Hco) as (Hp1 & Hco1 & _).
  destruct (MathUtils.getItemPosition config index1 _ (math w)) as [pos1 m1].
  cbn [fst snd] in Hp1, Hco1.
  destruct (getItemPosition_coherent config index2
              (Some (Config.itemCount config)) m1 Hco1) as (Hp2 & Hco2 & _).
  destruct (MathUtils.getItemPosition config index2 _ m1) as [pos2 m2].
  cbn [fst snd] in Hp2, Hco2.
  rewrite or_itemCount_itemCount in Hp1, Hp2.
  eexists. cbn [manager connectionLines math].
  split; [reflexivity|]. split; [|done].
  unfold drawn_for. cbn [GraphManager.from GraphManager.to from to element d].
  split; [done|]. split; [done|].
  destruct (MathUtils.isDiagonalPair config index1 index2 _).
  - unfold createLinearPath. by rewrite Hp1, Hp2.
  - unfold createArcPath. rewrite Hp1, Hp2.
    destruct (getArcControlPoint_is_Some config
                (MathUtils.circle_point config
                   (MathUtils.item_angle index1 (Config.itemCount config)))
                (MathUtils.circle_point config
                   (MathUtils.item_angle index2 (Config.itemCount config)))
                (Some (Q2R (Config.arcHeightRatio config)))) as [cp Hcp].
    exists cp. by rewrite Hcp.
Qed.

Lemma createConnectionLines_paths (config : Config.t)
    (connections : list GraphManager.Connection) :
  ∀ (w : World) (children : list PathElement),
    MathUtils.coherent (math w) →
    isEnabled (manager w) = true → connectionSvg (manager w) = Some children →
    ∃ news,
      connectionLines (manager (createConnectionLines config connections w))
        = connectionLines (manager w) ++ news
      ∧ Forall2 (drawn_for config) connections news.
Proof.
  induction connections as [|[i j] cs IH]; intros w children Hco Hen Hsvg.
  - exists []. rewrite createConnectionLines_foldl by done. cbn.
    by rewrite app_nil_r.
  - rewrite createConnectionLines_foldl by done.
    cbn [foldl GraphManager.from GraphManager.to].
    destruct (createSingleLine_path config i j w children Hco Hen Hsvg)
      as (l & Hl & Hdr & Hco').
    destruct (createSingleLine_spec config i j w children Hen Hsvg)
      as (l0 & _ & _ & _ & _ & Hen' & Hsvg').
    destruct (IH _ _ Hco' Hen' Hsvg') as (news & Hn & Hall).
    rewrite createConnectionLines_foldl in Hn by done.
    exists (l :: news). rewrite Hn, Hl, <- app_assoc. split; [done|].
    by constructor.
Qed.

Lemma drawn_for_straight (config : Config.t) (connection : GraphManager.Connection)
    (lineData : LineData) :
  drawn_for config connection lineData →
  straight lineData ↔ diagonal config (Config.itemCount config) connection.
Proof.
  unfold drawn_for, straight, diagonal. intros (_ & _ & H).
  destruct (MathUtils.isDiagonalPair _ _ _ _).
  - rewrite H. done.
  - destruct H as (cp & -> & _). done.
Qed.


(** When the configured item count is the even number [n >= 2] of nodes of
    the graph, and the lines are drawn for the [n (n - 1) / 2] connections of
    the complete graph: [isDiagonalPair(a, b, n)] holds exactly when
    [|a - b| = n / 2]; exactly [n / 2] connections are opposite pairs; the
    line of an opposite pair is the straight segment between the positions of
    its two items, the line of any other connection the quadratic curve
    between them through the control point of [getArcControlPoint]; so
    exactly [n / 2] lines are straight. *)
Lemma opposite_pairs_are_straight (history : list (Config.t * MathUtils.Call))
    (config : Config.t) (created : nat) (children : list PathElement) (n : nat) :
  (2 ≤ n)%nat → Nat.even n = true →
  Config.itemCount config = Z.of_nat n →
  let connections := GraphManager.getConnections (GraphManager.build n) in
  let lines := connectionLines
                 (manager (createConnectionLines config connections
                             (fresh_world history created children))) in
  length connections = (n * (n - 1) / 2)%nat
  ∧ (∀ a b, MathUtils.isDiagonalPair config a b (Some (Z.of_nat n)) = true
            ↔ Z.abs (a - b) = Z.of_nat n / 2)
  ∧ length (filter (diagonal config (Z.of_nat n)) connections) = (n / 2)%nat
  ∧ Forall2 (drawn_for config) connections lines
  ∧ Forall2 (λ connection lineData,
               straight lineData ↔ diagonal config (Z.of_nat n) connection)
      connections lines
  ∧ length (filter straight lines) = (n / 2)%nat.
Proof.
  intros Hn Hev Hcount connections lines. subst lines connections.
  destruct (even_half n Hev) as (k & Hk & Hh & Hh' & Hev').
  rewrite getConnections_build.
  destruct (createConnectionLines_paths config
              (GraphManager.connection_of <$> GraphManager.upper_pairs n)
              (fresh_world history created children) children) as (news & Hnews & Hall).
  { apply calls_coherent, coherent_initial. }
  { done. }
  { done. }
  cbn [fresh_world manager connectionLines app] in Hnews. rewrite Hnews.
  assert (Forall2 (λ connection lineData,
                     straight lineData ↔ diagonal config (Z.of_nat n) connection)
            (GraphManager.connection_of <$> GraphManager.upper_pairs n) news) as Hrel.
  { eapply Forall2_impl; [exact Hall|]. intros c l Hd.
    rewrite <- Hcount. by apply drawn_for_straight. }
  split; [by rewrite length_fmap, length_upper_pairs|].
  split.
  { intros a b. rewrite isDiagonalPair_iff by lia. tauto. }
  split; [by apply length_diagonal_edges|]. split; [done|]. split; [done|].
  rewrite <- (length_diagonal_edges config n Hn Hev). symmetry.
  apply (length_filter_Forall2 _ _ _ _ _ Hrel). intros c l H. by symmetry.
Qed.


End OppositePairs.

(** ** GraphManager: further properties *)

Section GraphQueries.
Import GraphManager.

Lemma length_adjacencyMatrix_build (n : nat) :
  length (adjacencyMatrix (build n)) = n.
Proof. by destruct (square_build n) as (_ & [H _]). Qed.

(** X1.  In the complete graph over [n] nodes two indices are connected exactly
    when they are distinct and both in [[0, n)]. *)
Theorem areConnected_complete (n : nat) (i j : Z) :
  areConnected (build n) i j = true
  ↔ i ≠ j ∧ 0 ≤ i < Z.of_nat n ∧ 0 ≤ j < Z.of_nat n.
Proof.
  unfold areConnected.
  destruct (isValidEdge (build n) i j) eqn:Hv; cbn [negb].
  - apply isValidEdge_spec in Hv. rewrite length_adjacencyMatrix_build in Hv.
    rewrite entry_build by lia.
    destruct (decide (Z.to_nat i = Z.to_nat j)); [lia|]. tauto.
  - split; [done|]. intros H. apply not_true_iff_false in Hv. destruct Hv.
    apply isValidEdge_spec. by rewrite length_adjacencyMatrix_build.
Qed.

Lemma filter_all {A : Type} (P : A → Prop) `{∀ x, Decision (P x)} (l : list A) :
  Forall P l → filter P l = l.
Proof.
  induction 1 as [|x l Hx _ IH]; [done|].
  rewrite filter_cons, IH. by destruct (decide (P x)).
Qed.

Lemma filter_seq_ne (n i : nat) :
  (i < n)%nat →
  filter (λ j, j ≠ i) (seq 0 n) = seq 0 i ++ seq (S i) (n - S i).
Proof.
  intros Hi.
  assert (seq 0 n = seq 0 i ++ i :: seq (S i) (n - S i)) as ->.
  { replace n with (i + S (n - S i))%nat at 1 by lia. by rewrite seq_app. }
  rewrite filter_app, filter_cons.
  destruct (decide (i ≠ i)) as [Hne|_]; [done|]. f_equal.
  - apply filter_all, Forall_forall. intros j Hj. apply elem_of_seq in Hj. lia.
  - apply filter_all, Forall_forall. intros j Hj. apply elem_of_seq in Hj. lia.
Qed.

(** X2.  [getNeighbors] on the complete graph: every other node, in ascending
    order, for a node of the graph, so that [getDegree] is [n - 1]; nothing
    for an index outside the graph. *)
Theorem getNeighbors_complete (n : nat) (i : Z) :
  (0 ≤ i < Z.of_nat n →
   getNeighbors (build n) i
     = Z.of_nat <$> (seq 0 (Z.to_nat i) ++ seq (S (Z.to_nat i)) (n - S (Z.to_nat i)))
   ∧ getDegree (build n) i = (n - 1)%nat)
  ∧ (¬ (0 ≤ i < Z.of_nat n) →
     getNeighbors (build n) i = [] ∧ getDegree (build n) i = 0%nat).
Proof.
  destruct (square_build n) as (Hc & _).
  unfold getDegree, getNeighbors. rewrite Hc. split.
  - intros Hi.
    assert ((i <? 0) || (Z.of_nat n <=? i) = false) as ->.
    { apply orb_false_iff. split; [apply Z.ltb_ge | apply Z.leb_gt]; lia. }
    assert (for_range 0 n
              (λ k neighbors,
                 match entry (adjacencyMatrix (build n)) (Z.to_nat i) k with
                 | Some 1 => neighbors ++ [Z.of_nat k]
                 | _ => neighbors
                 end) []
            = Z.of_nat <$> filter (λ j, j ≠ Z.to_nat i) (seq 0 n)) as ->.
    { unfold for_range. rewrite Nat.sub_0_r.
      transitivity ([] ++ (seq 0 n ≫= λ k, if decide (k ≠ Z.to_nat i)
                                            then [Z.of_nat k] else [])).
      - rewrite <- foldl_push. apply foldl_ext_in. intros acc k Hk.
        apply elem_of_seq in Hk. rewrite entry_build by lia.
        destruct (decide (Z.to_nat i = k)) as [->|Hne].
        + destruct (decide (k ≠ k)); [done|]. by rewrite app_nil_r.
        + destruct (decide (k ≠ Z.to_nat i)) as [|Hnn]; [done|].
          exfalso. apply Hnn. congruence.
      - cbn [app]. generalize (seq 0 n). intros l.
        induction l as [|k l IH]; [done|].
        rewrite bind_cons, filter_cons, IH.
        by destruct (decide (k ≠ Z.to_nat i)). }
    rewrite filter_seq_ne by lia. split; [done|].
    rewrite length_fmap, length_app, !length_seq. lia.
  - intros Hi.
    assert ((i <? 0) || (Z.of_nat n <=? i) = true) as ->; [|done].
    apply orb_true_iff. rewrite Z.ltb_lt, Z.leb_le. lia.
Qed.

(** *** Editing edges *)

Lemma entry_write_pair (n : nat) (m : list (list Z)) (i j a b : nat) (v : Z) :
  square n m → (i < n)%nat → (j < n)%nat →
  entry (set_entry (set_entry m i j v) j i v) a b
  = if decide ((a = i ∧ b = j) ∨ (a = j ∧ b = i)) then Some v else entry m a b.
Proof.
  intros Hsq Hi Hj.
  rewrite (entry_set_entry n), (entry_set_entry n); auto using square_set_entry.
  repeat case_decide; try done; exfalso; tauto.
Qed.

Lemma isValidEdge_set (g : t) (m : list (list Z)) (a b : Z) :
  length m = length (adjacencyMatrix g) →
  isValidEdge {| imageCount := imageCount g; adjacencyMatrix := m |} a b
  = isValidEdge g a b.
Proof. intros H. unfold isValidEdge. cbn. by rewrite H. Qed.

Lemma areConnected_write_pair (g : t) (i j a b : Z) (v : Z) :
  square (length (adjacencyMatrix g)) (adjacencyMatrix g) →
  isValidEdge g i j = true → isValidEdge g a b = true →
  areConnected
    {| imageCount := imageCount g;
       adjacencyMatrix :=
         set_entry (set_entry (adjacencyMatrix g) (Z.to_nat i) (Z.to_nat j) v)
           (Z.to_nat j) (Z.to_nat i) v |} a b
  = if decide ((a = i ∧ b = j) ∨ (a = j ∧ b = i))
    then bool_decide (v = 1) else areConnected g a b.
Proof.
  intros Hsq Hij Hab. unfold areConnected.
  rewrite isValidEdge_set by (unfold set_entry; by rewrite !length_alter).
  rewrite Hab. cbn [negb adjacencyMatrix].
  apply isValidEdge_spec in Hij, Hab.
  rewrite (entry_write_pair (length (adjacencyMatrix g))) by (done || lia).
  destruct (decide ((Z.to_nat a = Z.to_nat i ∧ Z.to_nat b = Z.to_nat j)
                    ∨ (Z.to_nat a = Z.to_nat j ∧ Z.to_nat b = Z.to_nat i))) as [H|H];
    destruct (decide ((a = i ∧ b = j) ∨ (a = j ∧ b = i))) as [H'|H'];
    try (exfalso; lia).
  - case_bool_decide as Hv; [by subst|]. by destruct v as [|[]|].
  - done.
Qed.

(** X3.  On a square matrix, [addEdge] of a valid pair connects that pair, both
    ways round, and changes the answer of [areConnected] for no other pair. *)
Theorem addEdge_connects (g : t) (i j a b : Z) :
  square (length (adjacencyMatrix g)) (adjacencyMatrix g) →
  isValidEdge g i j = true → isValidEdge g a b = true →
  areConnected (addEdge g i j) a b
  = if decide ((a = i ∧ b = j) ∨ (a = j ∧ b = i)) then true else areConnected g a b.
Proof.
  intros Hsq Hij Hab. unfold addEdge. rewrite Hij.
  by rewrite (areConnected_write_pair g i j a b 1).
Qed.

Lemma addEdge_connects_witness :
  areConnected (addEdge (removeEdge (build 3) 0 1) 0 1) 1 0
  = if decide ((1 = 0 ∧ 0 = 1) ∨ (1 = 1 ∧ 0 = 0)) then true
    else areConnected (removeEdge (build 3) 0 1) 1 0.
Proof.
  apply (addEdge_connects (removeEdge (build 3) 0 1) 0 1 1 0).
  - vm_compute. split; [done|]. repeat constructor.
  - reflexivity.
  - reflexivity.
Defined.

(** X4.  On a square matrix, [removeEdge] of a valid pair disconnects that pair,
    both ways round, and changes the answer of [areConnected] for no other
    pair. *)
Theorem removeEdge_disconnects (g : t) (i j a b : Z) :
  square (length (adjacencyMatrix g)) (adjacencyMatrix g) →
  isValidEdge g i j = true → isValidEdge g a b = true →
  areConnected (removeEdge g i j) a b
  = if decide ((a = i ∧ b = j) ∨ (a = j ∧ b = i)) then false else areConnected g a b.
Proof.
  intros Hsq Hij Hab. unfold removeEdge. rewrite Hij.
  by rewrite (areConnected_write_pair g i j a b 0).
Qed.

Lemma removeEdge_disconnects_witness :
  areConnected (removeEdge (build 3) 0 1) 1 0
  = if decide ((1 = 0 ∧ 0 = 1) ∨ (1 = 1 ∧ 0 = 0)) then false
    else areConnected (build 3) 1 0.
Proof.
  apply (removeEdge_disconnects (build 3) 0 1 1 0).
  - vm_compute. split; [done|]. repeat constructor.
  - reflexivity.
  - reflexivity.
Defined.

(** X5.  The adjacency relation after any edits of the complete graph: the matrix
    stays [n] by [n], symmetric, with zeros on the diagonal. *)
Theorem edge_calls_keep_symmetry (n : nat) (calls : list EdgeCall) :
  imageCount (foldl edge_call (build n) calls) = n
  ∧ square n (adjacencyMatrix (foldl edge_call (build n) calls))
  ∧ (∀ a b, (a < n)%nat → (b < n)%nat →
       entry (adjacencyMatrix (foldl edge_call (build n) calls)) a b
       = entry (adjacencyMatrix (foldl edge_call (build n) calls)) b a)
  ∧ (∀ a, (a < n)%nat →
       entry (adjacencyMatrix (foldl edge_call (build n) calls)) a a = Some 0).
Proof.
  assert (∀ g, (imageCount g = n ∧ square n (adjacencyMatrix g)
                ∧ (∀ a b, (a < n)%nat → (b < n)%nat →
                     entry (adjacencyMatrix g) a b = entry (adjacencyMatrix g) b a)
                ∧ (∀ a, (a < n)%nat → entry (adjacencyMatrix g) a a = Some 0)) →
               ∀ c, (imageCount (edge_call g c) = n
                     ∧ square n (adjacencyMatrix (edge_call g c))
                     ∧ (∀ a b, (a < n)%nat → (b < n)%nat →
                          entry (adjacencyMatrix (edge_call g c)) a b
                          = entry (adjacencyMatrix (edge_call g c)) b a)
                     ∧ (∀ a, (a < n)%nat →
                          entry (adjacencyMatrix (edge_call g c)) a a = Some 0))) as Hstep.
  { intros g (Hc & Hsq & Hsym & Hdiag) c.
    assert (∀ i j v,
              isValidEdge g i j = true →
              let m' := set_entry (set_entry (adjacencyMatrix g) (Z.to_nat i) (Z.to_nat j) v)
                          (Z.to_nat j) (Z.to_nat i) v in
              square n m'
              ∧ (∀ a b, (a < n)%nat → (b < n)%nat → entry m' a b = entry m' b a)
              ∧ (∀ a, (a < n)%nat → entry m' a a = Some 0)) as Hw.
    { intros i j v Hv m'. apply isValidEdge_spec in Hv. destruct Hsq as [Hlen Hrows].
      rewrite Hlen in Hv. split; [by do 2 apply square_set_entry|]. split.
      - intros a b Ha Hb. unfold m'.
        rewrite !(entry_write_pair n) by (done || lia).
        repeat case_decide; try done; try (exfalso; tauto). by apply Hsym.
      - intros a Ha. unfold m'. rewrite (entry_write_pair n) by (done || lia).
        case_decide; [lia | by apply Hdiag]. }
    destruct c as [i j|i j]; cbn [edge_call]; unfold addEdge, removeEdge;
      (destruct (isValidEdge g i j) eqn:Hv; [|done]);
      cbn [imageCount adjacencyMatrix]; (split; [done|]); by apply Hw. }
  induction calls as [|c calls IH] using rev_ind.
  - cbn. destruct (square_build n) as (Hc & Hsq). split; [done|]. split; [done|]. split.
    + intros a b Ha Hb. rewrite !entry_build by done.
      destruct (decide (a = b)), (decide (b = a)); done || congruence.
    + intros a Ha. rewrite entry_build by done. by destruct (decide (a = a)).
  - rewrite foldl_app. cbn [foldl]. by apply Hstep.
Qed.

(** X6.  [updateItemCount] rebuilds only when the count changes: asked for the
    count the graph already has it returns the graph as it is, so an edge
    removed earlier stays removed; asked for another count it returns the
    complete graph over the new count. *)
Theorem updateItemCount_after_removeEdge (n m : nat) (i j : Z) :
  isValidEdge (build n) i j = true →
  areConnected (updateItemCount (removeEdge (build n) i j) n) i j = false
  ∧ (m ≠ n → updateItemCount (removeEdge (build n) i j) m = build m).
Proof.
  intros Hv.
  assert (imageCount (removeEdge (build n) i j) = n) as Hc.
  { unfold removeEdge. rewrite Hv. cbn. apply square_build. }
  unfold updateItemCount. rewrite Hc. split.
  - rewrite Nat.eqb_refl. unfold removeEdge. rewrite Hv.
    rewrite (areConnected_write_pair (build n) i j i j 0); [| |done|done].
    + destruct (decide _) as [|Hn]; [done|]. exfalso. apply Hn. by left.
    + destruct (square_build n) as (_ & Hsq). by rewrite length_adjacencyMatrix_build.
  - intros Hne. apply Nat.eqb_neq in Hne. by rewrite Hne.
Qed.

Lemma updateItemCount_after_removeEdge_witness :
  areConnected (updateItemCount (removeEdge (build 8) 1 7) 8) 1 7 = false
  ∧ (6%nat ≠ 8%nat → updateItemCount (removeEdge (build 8) 1 7) 6 = build 6).
Proof. apply (updateItemCount_after_removeEdge 8 6 1 7). reflexivity. Defined.

(** *** The enumeration and the adjacency test agree *)

Lemma getConnections_bind (g : t) :
  getConnections g
  = seq 0 (length (adjacencyMatrix g)) ≫= λ i,
      match adjacencyMatrix g !! i with
      | Some row =>
          seq (i + 1) (length row - (i + 1)) ≫= λ j,
            match row !! j with
            | Some 1 => [connection_of (i, j)]
            | _ => []
            end
      | None => []
      end.
Proof.
  unfold getConnections, for_range. rewrite Nat.sub_0_r.
  rewrite <- (app_nil_l (seq 0 _ ≫= _)), <- foldl_push.
  apply foldl_ext_in. intros acc i _.
  destruct (adjacencyMatrix g !! i) as [row|]; [|by rewrite app_nil_r].
  apply row_connections_push.
Qed.

Lemma elem_of_one_or_none (o : option Z) (c c' : Connection) :
  c ∈ match o with Some 1 => [c'] | _ => [] end ↔ o = Some 1 ∧ c = c'.
Proof.
  destruct o as [[|[]|]|]; cbn;
    try (split; [by intros ?%elem_of_nil | by intros [[=] _]]).
  rewrite list_elem_of_singleton. tauto.
Qed.

(** X7.  On a square matrix [getConnections] lists, without repetition, exactly
    the pairs [from < to] that [areConnected] accepts. *)
Theorem getConnections_areConnected (g : t) :
  square (length (adjacencyMatrix g)) (adjacencyMatrix g) →
  NoDup (getConnections g)
  ∧ ∀ a b, {| from := a; to := b |} ∈ getConnections g
           ↔ a < b ∧ areConnected g a b = true.
Proof.
  intros [_ Hrows]. rewrite getConnections_bind. split.
  - apply NoDup_bind; [| |apply NoDup_seq].
    + intros i1 i2 c _ _ H1 H2.
      destruct (adjacencyMatrix g !! i1) as [r1|]; [|by apply elem_of_nil in H1].
      destruct (adjacencyMatrix g !! i2) as [r2|]; [|by apply elem_of_nil in H2].
      apply list_elem_of_bind in H1 as (j1 & H1 & _), H2 as (j2 & H2 & _).
      apply elem_of_one_or_none in H1 as (_ & ->), H2 as (_ & E).
      by apply connection_of_inj in E as [= -> _].
    + intros i _. destruct (adjacencyMatrix g !! i) as [row|]; [|constructor].
      apply NoDup_bind; [| |apply NoDup_seq].
      * intros j1 j2 c _ _ H1 H2.
        apply elem_of_one_or_none in H1 as (_ & ->), H2 as (_ & E).
        by apply connection_of_inj in E as [= ->].
      * intros j _. destruct (row !! j) as [[|[]|]|]; repeat constructor.
        all: by intros ?%elem_of_nil.
  - intros a b. rewrite list_elem_of_bind. unfold areConnected. split.
    + intros (i & Hc & Hi). apply elem_of_seq in Hi.
      destruct (adjacencyMatrix g !! i) as [row|] eqn:Hrow; [|by apply elem_of_nil in Hc].
      apply list_elem_of_bind in Hc as (j & Hc & Hj). apply elem_of_seq in Hj.
      apply elem_of_one_or_none in Hc as (Hone & [= -> ->]).
      assert (length row = length (adjacencyMatrix g)) as Hr
        by exact (Forall_lookup_1 _ _ _ _ Hrows Hrow).
      split; [lia|].
      assert (isValidEdge g (Z.of_nat i) (Z.of_nat j) = true) as ->
        by (apply isValidEdge_spec; lia).
      cbn [negb]. unfold entry. rewrite !Nat2Z.id, Hrow. cbn. by rewrite Hone.
    + intros (Hab & Hconn).
      destruct (isValidEdge g a b) eqn:Hv; [|done]. cbn [negb] in Hconn.
      apply isValidEdge_spec in Hv.
      unfold entry in Hconn.
      destruct (adjacencyMatrix g !! Z.to_nat a) as [row|] eqn:Hrow; [|done].
      cbn in Hconn.
      assert (length row = length (adjacencyMatrix g)) as Hr
        by exact (Forall_lookup_1 _ _ _ _ Hrows Hrow).
      exists (Z.to_nat a). rewrite Hrow. split; [|apply elem_of_seq; lia].
      apply list_elem_of_bind. exists (Z.to_nat b). split; [|apply elem_of_seq; lia].
      apply elem_of_one_or_none. split.
      * by destruct (row !! Z.to_nat b) as [[|[]|]|].
      * unfold connection_of. cbn. f_equal; lia.
Qed.

Lemma getConnections_areConnected_witness :
  NoDup (getConnections (removeEdge (build 4) 1 2))
  ∧ ∀ a b, {| from := a; to := b |} ∈ getConnections (removeEdge (build 4) 1 2)
           ↔ a < b ∧ areConnected (removeEdge (build 4) 1 2) a b = true.
Proof.
  apply (getConnections_areConnected (removeEdge (build 4) 1 2)).
  vm_compute. split; [done|]. repeat constructor.
Defined.

End GraphQueries.

(** ** MathUtils: further properties *)

Section Geometry.
Import MathUtils.

(** X10.  [isDiagonalPair] does not depend on the order of the two indices, and no
    index is diagonal to itself. *)
Theorem isDiagonalPair_symmetric (config : Config.t) (index1 index2 : Z)
    (totalItems : option Z) :
  isDiagonalPair config index1 index2 totalItems
  = isDiagonalPair config index2 index1 totalItems
  ∧ (or_itemCount totalItems config ≠ 0 →
     isDiagonalPair config index1 index1 totalItems = false).
Proof.
  unfold isDiagonalPair. split.
  - by replace (index2 - index1) with (- (index1 - index2)) by lia; rewrite Z.abs_opp.
  - intros HN. rewrite Z.sub_diag. cbn [Z.abs].
    set (N := or_itemCount totalItems config) in *.
    destruct (Z.eqb_spec (Z.rem N 2) 0) as [Hr|]; [|done]. cbn [andb].
    apply Z.eqb_neq. pose proof (Z.quot_rem' N 2) as Hq. lia.
Qed.

(** *** Distances and clamping *)

(** X11.  [getDistance] is symmetric, never negative, and zero exactly between a
    point and itself. *)
Theorem getDistance_metric (p q : Point.t) :
  getDistance p q = getDistance q p
  ∧ (0 <= getDistance p q)%R
  ∧ (getDistance p q = 0%R ↔ p = q).
Proof.
  unfold getDistance. split; [f_equal; ring|]. split; [apply sqrt_pos|].
  rewrite sqrt_sum_squares_eq_0. destruct p as [px py], q as [qx qy]. cbn.
  split.
  - intros [Hx Hy]. f_equal; lra.
  - intros [= -> ->]. lra.
Qed.

(** X12.  [clamp] never exceeds [max]; when [min <= max] its result lies in
    [[min, max]], and a value already there is returned as it is. *)
Theorem clamp_bounds (value min max : R) :
  (clamp value min max <= max)%R
  ∧ ((min <= max)%R → (min <= clamp value min max)%R)
  ∧ ((min <= value <= max)%R → clamp value min max = value).
Proof.
  unfold clamp, Rmin, Rmax.
  repeat (destruct (Rle_dec _ _)); repeat split; intros; lra.
Qed.

End Geometry.

(** ** MathUtils: what the cache holds *)

Section CacheContents.
Import MathUtils.

Lemma clearCacheIfNeeded_same (config : Config.t) (st : t) :
  _lastConfig st = Some (configKey config) → _clearCacheIfNeeded config st = st.
Proof. intros H. unfold _clearCacheIfNeeded. by rewrite bool_decide_eq_true_2. Qed.

Lemma getItemPosition_hit (config : Config.t) (index : Z) (totalItems : option Z)
    (st : t) :
  _lastConfig st = Some (configKey config) →
  is_Some (_positionCache st !! ("pos"%string, index, or_itemCount totalItems config)) →
  (getItemPosition config index totalItems st).2 = st.
Proof.
  intros Hk [p Hp]. unfold getItemPosition.
  rewrite clearCacheIfNeeded_same by done. by rewrite Hp.
Qed.

Lemma getItemElementPosition_hit (config : Config.t) (index : Z)
    (totalItems : option Z) (st : t) :
  _lastConfig st = Some (configKey config) →
  is_Some (_positionCache st !! ("elem"%string, index, or_itemCount totalItems config)) →
  (getItemElementPosition config index totalItems st).2 = st.
Proof.
  intros Hk [p Hp]. unfold getItemElementPosition.
  rewrite clearCacheIfNeeded_same by done. by rewrite Hp.
Qed.

Lemma getItemPosition_caches (config : Config.t) (index : Z) (totalItems : option Z)
    (st : t) :
  is_Some (_positionCache (getItemPosition config index totalItems st).2
             !! ("pos"%string, index, or_itemCount totalItems config))
  ∧ (_lastConfig st = Some (configKey config) →
     ∀ k, is_Some (_positionCache st !! k) →
          is_Some (_positionCache (getItemPosition config index totalItems st).2 !! k)).
Proof.
  unfold getItemPosition.
  destruct (_positionCache (_clearCacheIfNeeded config st) !! _) as [p|] eqn:Hp;
    cbn [snd _positionCache].
  - split; [by rewrite Hp|]. intros Hk k Hin. by rewrite clearCacheIfNeeded_same.
  - split; [by rewrite lookup_insert_eq|]. intros Hk k Hin.
    rewrite clearCacheIfNeeded_same by done.
    rewrite lookup_insert. by case_decide.
Qed.

Lemma getItemElementPosition_caches (config : Config.t) (index : Z)
    (totalItems : option Z) (st : t) :
  is_Some (_positionCache (getItemElementPosition config index totalItems st).2
             !! ("elem"%string, index, or_itemCount totalItems config))
  ∧ (_lastConfig st = Some (configKey config) →
     ∀ k, is_Some (_positionCache st !! k) →
          is_Some (_positionCache (getItemElementPosition config index totalItems st).2 !! k)).
Proof.
  unfold getItemElementPosition.
  destruct (_positionCache (_clearCacheIfNeeded config st) !! _) as [p|] eqn:Hp;
    cbn [snd _positionCache].
  - split; [by rewrite Hp|]. intros Hk k Hin. by rewrite clearCacheIfNeeded_same.
  - destruct (getItemPosition_caches config index
                (Some (or_itemCount totalItems config)) (_clearCacheIfNeeded config st))
      as (_ & Hkeep).
    destruct (getItemPosition config index _ (_clearCacheIfNeeded config st))
      as [centerPos st2]. cbn [snd _positionCache] in *.
    split; [by rewrite lookup_insert_eq|]. intros Hk k Hin.
    rewrite lookup_insert. case_decide; [done|].
    apply Hkeep; by rewrite clearCacheIfNeeded_same.
Qed.

Lemma coherent_lookup (config : Config.t) (st : t) (index n : Z) :
  coherent st → _lastConfig st = Some (configKey config) →
  (is_Some (_positionCache st !! ("pos"%string, index, n)) →
   _positionCache st !! ("pos"%string, index, n)
   = Some (circle_point config (item_angle index n)))
  ∧ (is_Some (_positionCache st !! ("elem"%string, index, n)) →
     _positionCache st !! ("elem"%string, index, n)
     = Some (anchor_point config (item_angle index n))).
Proof.
  intros Hc Hk. unfold coherent in Hc. rewrite Hk in Hc.
  split; intros [p Hp]; rewrite Hp;
    destruct (Hc config _ _ _ _ eq_refl Hp) as [[He ->]|[He ->]]; done.
Qed.

(** The body of the loop of [precomputePositions]. *)
Lemma precompute_round (config : Config.t) (N : Z) (i : nat) (st : t) :
  coherent st →
  let st' := (getItemElementPosition config (Z.of_nat i) (Some N)
                (getItemPosition config (Z.of_nat i) (Some N) st).2).2 in
  coherent st' ∧ _lastConfig st' = Some (configKey config)
  ∧ is_Some (_positionCache st' !! ("pos"%string, Z.of_nat i, or_itemCount (Some N) config))
  ∧ is_Some (_positionCache st' !! ("elem"%string, Z.of_nat i, or_itemCount (Some N) config))
  ∧ (_lastConfig st = Some (configKey config) →
     ∀ k, is_Some (_positionCache st !! k) → is_Some (_positionCache st' !! k)).
Proof.
  intros Hc.
  destruct (getItemPosition_coherent config (Z.of_nat i) (Some N) st Hc)
    as (_ & Hc1 & Hk1).
  destruct (getItemPosition_caches config (Z.of_nat i) (Some N) st) as (Hin1 & Hkeep1).
  set (st1 := (getItemPosition config (Z.of_nat i) (Some N) st).2) in *.
  destruct (getItemElementPosition_coherent config (Z.of_nat i) (Some N) st1 Hc1)
    as (_ & Hc2 & Hk2).
  destruct (getItemElementPosition_caches config (Z.of_nat i) (Some N) st1)
    as (Hin2 & Hkeep2).
  cbn zeta. split; [done|]. split; [done|]. split; [by apply Hkeep2|].
  split; [done|]. intros Hk k Hin. apply Hkeep2; [done|]. by apply Hkeep1.
Qed.

(** X14.  After [precomputePositions(N)] the cache holds, for every item [i] of the
    [N], its circle position and its anchor position under the active
    configuration, and asking for either again leaves the cache as it is. *)
Theorem precomputePositions_fills_cache (history : list (Config.t * Call))
    (config : Config.t) (N i : Z) :
  0 ≤ i < N →
  let st := precomputePositions config (Some N) (calls history initial).2 in
  _positionCache st !! ("pos"%string, i, N)
    = Some (circle_point config (item_angle i N))
  ∧ _positionCache st !! ("elem"%string, i, N)
    = Some (anchor_point config (item_angle i N))
  ∧ (getItemPosition config i (Some N) st).2 = st
  ∧ (getItemElementPosition config i (Some N) st).2 = st.
Proof.
  intros Hi.
  destruct (calls_coherent history initial coherent_initial) as (_ & Hc).
  assert (or_itemCount (Some N) config = N) as HN.
  { unfold or_itemCount. destruct (Z.eqb_spec N 0); [lia | done]. }
  unfold precomputePositions, for_range. rewrite HN, Nat.sub_0_r.
  assert (∀ k st0, coherent st0 → (0 < k)%nat →
            let st := foldl (λ acc j,
                        (getItemElementPosition config (Z.of_nat j) (Some N)
                           (getItemPosition config (Z.of_nat j) (Some N) acc).2).2)
                        st0 (seq 0 k) in
            coherent st ∧ _lastConfig st = Some (configKey config)
            ∧ ∀ j, (j < k)%nat →
                is_Some (_positionCache st !! ("pos"%string, Z.of_nat j, N))
                ∧ is_Some (_positionCache st !! ("elem"%string, Z.of_nat j, N))) as Hloop.
  { induction k as [|k IH]; intros st0 Hc0 Hk; [lia|].
    rewrite seq_S, foldl_app. cbn [foldl Nat.add].
    destruct k as [|k].
    - cbn [seq foldl].
      destruct (precompute_round config N 0 st0 Hc0) as (H1 & H2 & H3 & H4 & _).
      rewrite HN in H3, H4. cbn zeta in *.
      split; [done|]. split; [done|]. intros j Hj. by replace j with 0%nat by lia.
    - destruct (IH st0 Hc0 ltac:(lia)) as (Hc1 & Hk1 & Hin1). cbn zeta in *.
      set (st1 := foldl _ st0 (seq 0 (S k))) in *.
      destruct (precompute_round config N (S k) st1 Hc1) as (H1 & H2 & H3 & H4 & H5).
      rewrite HN in H3, H4. cbn zeta in *.
      split; [done|]. split; [done|]. intros j Hj.
      destruct (decide (j = S k)) as [->|Hne]; [done|].
      destruct (Hin1 j ltac:(lia)) as [Ha Hb]. split; by apply H5. }
  destruct (Hloop (Z.to_nat N) _ Hc ltac:(lia)) as (Hc' & Hk' & Hin').
  cbn zeta in *. set (st := foldl _ _ (seq 0 (Z.to_nat N))) in *.
  destruct (Hin' (Z.to_nat i) ltac:(lia)) as [Hpos Helem].
  rewrite Z2Nat.id in Hpos, Helem by lia.
  destruct (coherent_lookup config st i N Hc' Hk') as (Hvp & Hve).
  split; [by apply Hvp|]. split; [by apply Hve|]. split.
  - apply getItemPosition_hit; [done | by rewrite HN].
  - apply getItemElementPosition_hit; [done | by rewrite HN].
Qed.

Lemma precomputePositions_fills_cache_witness :
  let st := precomputePositions PathManager.four_items_config (Some 4)
              (calls [] initial).2 in
  _positionCache st !! ("pos"%string, 3, 4)
    = Some (circle_point PathManager.four_items_config (item_angle 3 4))
  ∧ _positionCache st !! ("elem"%string, 3, 4)
    = Some (anchor_point PathManager.four_items_config (item_angle 3 4))
  ∧ (getItemPosition PathManager.four_items_config 3 (Some 4) st).2 = st
  ∧ (getItemElementPosition PathManager.four_items_config 3 (Some 4) st).2 = st.
Proof.
  apply (precomputePositions_fills_cache [] PathManager.four_items_config 4 3). lia.
Defined.

End CacheContents.


(** ** ResponsiveConfigManager: further properties *)

Section Responsive.
Import ResponsiveConfigManager.

Lemma getBreakpoint_cases (width : Q) :
  getBreakpoint width = DESKTOP ∨ getBreakpoint width = TABLET
  ∨ getBreakpoint width = MOBILE.
Proof.
  unfold getBreakpoint. destruct (width_ge width (min DESKTOP)); [by left|].
  destruct (_ && _); [right; by left | right; by right].
Qed.

Lemma getBreakpoint_in (width : Q) : getBreakpoint width ∈ BREAKPOINTS.
Proof.
  unfold BREAKPOINTS. destruct (getBreakpoint_cases width) as [-> | [-> | ->]]; set_solver.
Qed.

Lemma breakpoint_name_inj (a b : Breakpoint) :
  a ∈ BREAKPOINTS → b ∈ BREAKPOINTS → name a = name b → a = b.
Proof.
  unfold BREAKPOINTS. rewrite !elem_of_cons, !elem_of_nil.
  intros [->|[->|[->|[]]]] [->|[->|[->|[]]]]; cbn; intros H; done.
Qed.

Lemma cache_fresh_insert (m : t) (itemCount : Z) (bp : Breakpoint)
    (cur : option Breakpoint) (cbs : list Callback) (tm : option nat) (ini : bool) :
  bp ∈ BREAKPOINTS → cache_fresh m →
  cache_fresh {| _cache := <[(name bp, itemCount) := _calculateConfig bp itemCount]> (_cache m);
                 _currentBreakpoint := cur; _resizeCallbacks := cbs;
                 _debounceTimer := tm; _isInitialized := ini |}.
Proof.
  intros Hbp Hm k config. cbn.
  destruct (decide (k = (name bp, itemCount))) as [->|Hk].
  - rewrite lookup_insert_eq. intros [= <-]. by exists bp.
  - rewrite lookup_insert_ne by done. apply Hm.
Qed.

Lemma invariant_initial (width : Q) : page_invariant (initial_world width).
Proof.
  split; [|split].
  - intros k config. cbn. by rewrite lookup_empty.
  - reflexivity.
  - by left.
Qed.

Lemma invariant_getResponsiveConfig (itemCount : Z) (w : World) :
  page_invariant w → page_invariant (getResponsiveConfig itemCount w).2.
Proof.
  intros Hinv. pose proof Hinv as (Hc & Hl & Ht). unfold getResponsiveConfig.
  assert (page_invariant
            (set_rcm w {| _cache := <[(name (getBreakpoint (innerWidth w)), itemCount)
                                        := _calculateConfig (getBreakpoint (innerWidth w)) itemCount]>
                                      (_cache (rcm w));
                          _currentBreakpoint := Some (getBreakpoint (innerWidth w));
                          _resizeCallbacks := _resizeCallbacks (rcm w);
                          _debounceTimer := _debounceTimer (rcm w);
                          _isInitialized := _isInitialized (rcm w) |})) as Hnew.
  { split; [|split].
    - cbn [set_rcm rcm]. apply cache_fresh_insert; [apply getBreakpoint_in | exact Hc].
    - exact Hl.
    - exact Ht. }
  destruct (_cache (rcm w) !! _) as [config|]; [|exact Hnew].
  destruct (same_name _ _); [exact Hinv|exact Hnew].
Qed.

Lemma invariant_debounced (w : World) :
  page_invariant w → timers w = [] → page_invariant (debounced w) ∧ timers (debounced w) = [].
Proof.
  intros (Hc & Hl & Ht) Hnil. unfold debounced.
  destruct (same_name _ _); [done|].
  split; [|done]. split; [|split].
  - intros k config. cbn. by rewrite lookup_empty.
  - unfold one_listener in *. cbn. exact Hl.
  - by left.
Qed.

Lemma invariant_advance (t : nat) (w : World) :
  page_invariant w → page_invariant (advance t w).
Proof.
  intros Hinv. pose proof Hinv as (Hc & Hl & [Hnil|(id & due & Htm & Hid & Hdue)]).
  - rewrite advance_no_timers by done. split; [|split]; [done|done|by left].
  - destruct (decide (due ≤ t)%nat) as [Hle|Hgt].
    + rewrite (advance_at_due w t id due) by done.
      apply invariant_debounced; [|done].
      split; [|split]; [done|done|by left].
    + rewrite (advance_before_due w t id due) by (done || lia).
      split; [|split]; [done|done|].
      right. exists id, due. cbn. split; [done|]. split; [done|]. lia.
Qed.

Lemma invariant_handle (e : Event) (w : World) :
  page_invariant w → page_invariant (handle e w).
Proof.
  intros Hinv. pose proof Hinv as (Hc & Hl & Ht). destruct e as [|width|c|c|itemCount|]; cbn [handle].
  - unfold init. destruct (_isInitialized (rcm w)) eqn:Hini; [done|].
    unfold one_listener in Hl. rewrite Hini in Hl.
    split; [|split].
    + intros k config. cbn. apply Hc.
    + unfold one_listener. cbn. by rewrite Hl.
    + destruct Ht as [Hnil|(id & due & Htm & Hid & Hdue)]; [by left|].
      right. exists id, due. done.
  - cbn [resizeListeners]. unfold one_listener in Hl.
    destruct (_isInitialized (rcm w)) eqn:Hini; rewrite Hl; unfold for_range;
      cbn [seq foldl Nat.sub].
    + unfold resize_listener. cbn [rcm].
      destruct Ht as [Hnil|(id & due & Htm & Hid & Hdue)].
      * destruct (_debounceTimer (rcm w)) as [old|]; unfold clearTimeout, setTimeout;
          cbn; rewrite Hnil, ?filter_nil;
          (split; [|split];
           [exact Hc | unfold one_listener; cbn; by rewrite Hini
           | right; eexists _, _; cbn; split; [reflexivity|]; split; [reflexivity|lia]]).
      * rewrite Hid. unfold clearTimeout, setTimeout. cbn. rewrite Htm.
        rewrite filter_cons, filter_nil. cbn [fst].
        destruct (decide (id ≠ id)); [done|].
        split; [|split];
          [exact Hc | unfold one_listener; cbn; by rewrite Hini
          | right; eexists _, _; cbn; split; [reflexivity|]; split; [reflexivity|lia]].
    + split; [|split]; [done| |].
      * unfold one_listener. cbn. by rewrite Hini.
      * destruct Ht as [Hnil|(id & due & Htm & Hid & Hdue)]; [by left|].
        right. exists id, due. done.
  - split; [|split]; [intros k config; cbn; apply Hc|done|done].
  - split; [|split]; [intros k config; cbn; apply Hc|done|done].
  - by apply invariant_getResponsiveConfig.
  - done.
Qed.

Lemma invariant_run (trace : list (nat * Event)) (w : World) :
  page_invariant w → page_invariant (run trace w).
Proof.
  revert w. induction trace as [|[t e] trace IH]; intros w Hinv; [done|].
  cbn [run foldl]. apply IH. unfold step. cbn [fst snd].
  by apply invariant_handle, invariant_advance.
Qed.

(** X15.  In whatever state the page is, [getResponsiveConfig] returns the
    configuration of the tier the window's width selects now and of the item
    count asked for, cached or not, as [forceRecalculate] does; the
    configuration is then in the cache under its key, and the current
    breakpoint name is the one of the configuration returned. *)
Theorem getResponsiveConfig_never_stale (width : Q) (trace : list (nat * Event))
    (itemCount : Z) :
  let w := run trace (initial_world width) in
  let bp := getBreakpoint (innerWidth w) in
  (getResponsiveConfig itemCount w).1 = _calculateConfig bp itemCount
  ∧ (forceRecalculate itemCount w).1 = _calculateConfig bp itemCount
  ∧ _cache (rcm (getResponsiveConfig itemCount w).2) !! (name bp, itemCount)
    = Some (_calculateConfig bp itemCount)
  ∧ getCurrentBreakpointName (getResponsiveConfig itemCount w).2
    = Config.breakpoint (getResponsiveConfig itemCount w).1.
Proof.
  intros w bp.
  destruct (invariant_run trace (initial_world width) (invariant_initial width))
    as (Hc & _). fold w in Hc.
  assert (name bp ≠ ""%string) as Hne.
  { unfold bp. by destruct (getBreakpoint_cases (innerWidth w)) as [-> | [-> | ->]]. }
  split; [|split; [|split]].
  - unfold getResponsiveConfig. fold bp.
    destruct (_cache (rcm w) !! (name bp, itemCount)) as [config|] eqn:Hk; [|done].
    destruct (same_name _ _); [|done]. cbn [fst].
    destruct (Hc _ _ Hk) as (bp' & Hin & Hname & ->). cbn [fst snd] in *.
    f_equal. symmetry. apply breakpoint_name_inj; [apply getBreakpoint_in|done|done].
  - unfold forceRecalculate, getResponsiveConfig, clearCache. cbn.
    by rewrite lookup_empty.
  - unfold getResponsiveConfig. fold bp.
    destruct (_cache (rcm w) !! (name bp, itemCount)) as [config|] eqn:Hk.
    + destruct (same_name _ _); cbn; [|by rewrite lookup_insert_eq].
      rewrite Hk. destruct (Hc _ _ Hk) as (bp' & Hin & Hname & ->). cbn [fst snd] in *.
      do 2 f_equal. apply breakpoint_name_inj; [done|apply getBreakpoint_in|done].
    + cbn. by rewrite lookup_insert_eq.
  - unfold getResponsiveConfig, getCurrentBreakpointName. fold bp.
    destruct (_cache (rcm w) !! (name bp, itemCount)) as [config|] eqn:Hk.
    + destruct (_currentBreakpoint (rcm w)) as [cur|] eqn:Hcur; cbn [same_name].
      * case_bool_decide as Hsame; cbn [fst snd rcm set_rcm _currentBreakpoint innerWidth].
        -- rewrite Hcur. destruct (Hc _ _ Hk) as (bp' & Hin & Hname & ->).
           cbn [fst snd Config.breakpoint _calculateConfig] in *.
           rewrite bool_decide_eq_false_2 by congruence. congruence.
        -- fold bp. by rewrite bool_decide_eq_false_2.
      * cbn. fold bp. by rewrite bool_decide_eq_false_2.
    + cbn. fold bp. by rewrite bool_decide_eq_false_2.
Qed.

(** X16.  However resizes, queries, subscriptions and the passage of time
    interleave, at most one debounce timer is pending; it is the one the class
    remembers and it expires within 300 ms. *)
Theorem debounce_one_pending_timer (width : Q) (trace : list (nat * Event)) :
  let w := run trace (initial_world width) in
  (length (timers w) ≤ 1)%nat
  ∧ (resizeListeners w ≤ 1)%nat
  ∧ ∀ id due, (id, due) ∈ timers w →
      _debounceTimer (rcm w) = Some id ∧ (clock w < due ≤ clock w + 300)%nat.
Proof.
  intros w.
  destruct (invariant_run trace (initial_world width) (invariant_initial width))
    as (_ & Hl & Ht). fold w in Hl, Ht.
  split; [|split].
  - destruct Ht as [->|(id & due & -> & _)]; cbn; lia.
  - unfold one_listener in Hl. rewrite Hl. destruct (_isInitialized _); lia.
  - intros id due Hin. destruct Ht as [Hnil|(id' & due' & Htm & Hid & Hdue)].
    + rewrite Hnil in Hin. by apply elem_of_nil in Hin.
    + rewrite Htm in Hin. apply list_elem_of_singleton in Hin as [= -> ->]. done.
Qed.

(** *** [cleanup] *)

Lemma silent_debounced (w : World) :
  _resizeCallbacks (rcm w) = [] →
  _resizeCallbacks (rcm (debounced w)) = [] ∧ notified (debounced w) = notified w.
Proof.
  intros H. unfold debounced. destruct (same_name _ _); [done|].
  cbn. rewrite H. cbn. by rewrite app_nil_r.
Qed.

Lemma silent_advance (t : nat) (w : World) :
  _resizeCallbacks (rcm w) = [] →
  _resizeCallbacks (rcm (advance t w)) = [] ∧ notified (advance t w) = notified w.
Proof.
  intros H. unfold advance.
  set (w1 := {| innerWidth := innerWidth w |}).
  assert (_resizeCallbacks (rcm w1) = [] ∧ notified w1 = notified w) as Hw1 by done.
  clearbody w1. generalize (filter (λ tm : nat * nat, (tm.2 ≤ t)%nat) (timers w)).
  intros due. revert w1 Hw1. induction due as [|d due IH]; intros w1 [H1 H2]; [done|].
  cbn [foldl]. apply IH. destruct (silent_debounced w1 H1) as [H3 H4].
  split; [done|congruence].
Qed.

Lemma silent_resize_listener (w : World) :
  _resizeCallbacks (rcm (resize_listener w)) = _resizeCallbacks (rcm w)
  ∧ notified (resize_listener w) = notified w.
Proof.
  unfold resize_listener. destruct (_debounceTimer (rcm w)); done.
Qed.

Lemma silent_handle (e : Event) (w : World) :
  is_subscribe e = false → _resizeCallbacks (rcm w) = [] →
  _resizeCallbacks (rcm (handle e w)) = [] ∧ notified (handle e w) = notified w.
Proof.
  intros He H. destruct e as [|width|c|c|itemCount|]; cbn [handle]; try done.
  - unfold init. by destruct (_isInitialized _).
  - unfold for_range. rewrite Nat.sub_0_r. cbn [resizeListeners].
    set (w1 := {| innerWidth := width |}).
    assert (_resizeCallbacks (rcm w1) = [] ∧ notified w1 = notified w) as Hw1 by done.
    clearbody w1. generalize (seq 0 (resizeListeners w)). intros l.
    revert w1 Hw1. induction l as [|i l IH]; intros w1 [H1 H2]; [done|].
    cbn [foldl]. apply IH. destruct (silent_resize_listener w1) as [H3 H4].
    split; congruence.
  - cbn. by rewrite H.
  - unfold getResponsiveConfig. destruct (_ !! _); [destruct (same_name _ _)|]; done.
Qed.

Lemma silent_run (trace : list (nat * Event)) (w : World) :
  Forall (λ te, is_subscribe te.2 = false) trace →
  _resizeCallbacks (rcm w) = [] →
  notified (run trace w) = notified w.
Proof.
  revert w. induction trace as [|[t e] trace IH]; intros w Htr H; [done|].
  apply Forall_cons in Htr as [He Htr]. cbn [run foldl].
  destruct (silent_advance t w H) as [H1 H2].
  destruct (silent_handle e (advance t w) He H1) as [H3 H4].
  unfold run in IH. unfold step at 2. cbn [fst snd].
  rewrite IH by done. congruence.
Qed.

(** X17.  [cleanup], in whatever state the page is, cancels the pending
    notification (no timer is left), forgets the subscribers and the cached
    configurations; from then on nobody is notified of anything, resizes
    included, until somebody subscribes again. *)
Theorem cleanup_silences (width : Q) (before after : list (nat * Event)) :
  Forall (λ te, is_subscribe te.2 = false) after →
  let w := run before (initial_world width) in
  timers (cleanup w) = []
  ∧ _resizeCallbacks (rcm (cleanup w)) = []
  ∧ _cache (rcm (cleanup w)) = ∅
  ∧ notified (run after (cleanup w)) = notified w.
Proof.
  intros Hafter w.
  destruct (invariant_run before (initial_world width) (invariant_initial width))
    as (_ & _ & Ht). fold w in Ht.
  split; [|split; [|split]].
  - unfold cleanup. destruct Ht as [Hnil|(id & due & Htm & Hid & _)].
    + destruct (_debounceTimer (rcm w)); cbn; rewrite Hnil; done.
    + rewrite Hid. cbn. rewrite Htm, filter_cons, filter_nil. cbn [fst].
      by destruct (decide (id ≠ id)).
  - unfold cleanup. by destruct (_debounceTimer (rcm w)).
  - unfold cleanup. by destruct (_debounceTimer (rcm w)).
  - rewrite silent_run; [|done|].
    + unfold cleanup. by destruct (_debounceTimer (rcm w)).
    + unfold cleanup. by destruct (_debounceTimer (rcm w)).
Qed.

Lemma cleanup_silences_witness :
  let w := run [(0%nat, Load); (0%nat, Subscribe 1%nat); (0%nat, Subscribe 2%nat);
                (1000%nat, Resize (inject_Z 400))] (initial_world (inject_Z 1024)) in
  timers (cleanup w) = []
  ∧ _resizeCallbacks (rcm (cleanup w)) = []
  ∧ _cache (rcm (cleanup w)) = ∅
  ∧ notified (run [(1300%nat, Idle); (2000%nat, Resize (inject_Z 1024));
                   (2300%nat, Query 8)] (cleanup w)) = notified w.
Proof.
  exact (cleanup_silences (inject_Z 1024)
           [(0%nat, Load); (0%nat, Subscribe 1%nat); (0%nat, Subscribe 2%nat);
            (1000%nat, Resize (inject_Z 400))]
           [(1300%nat, Idle); (2000%nat, Resize (inject_Z 1024)); (2300%nat, Query 8)]
           ltac:(repeat constructor)).
Defined.

(** *** [onResize] and [offResize] *)

Lemma remove_first_not_in (c : Callback) (l : list Callback) :
  c ∉ l → remove_first c l = l.
Proof.
  induction l as [|d l IH]; [done|]. rewrite not_elem_of_cons. intros [Hne Hl].
  cbn. destruct (Nat.eqb_spec d c); [congruence|]. by rewrite IH.
Qed.

Lemma remove_first_snoc (c : Callback) (l : list Callback) :
  remove_first c (l ++ [c]) ≡ₚ l.
Proof.
  induction l as [|d l IH]; cbn.
  - by rewrite Nat.eqb_refl.
  - destruct (Nat.eqb_spec d c) as [->|Hne].
    + symmetry. apply Permutation_cons_append.
    + by rewrite IH.
Qed.

(** X18.  Unsubscribing a callback that is not registered changes nothing;
    subscribing a callback and unsubscribing it again leaves the same
    subscribers, in the same order when it was not registered before, and
    never touches the rest of the class. *)
Theorem offResize_undoes_onResize (callback : Callback) (m : t) :
  (callback ∉ _resizeCallbacks m → offResize callback m = m)
  ∧ (callback ∉ _resizeCallbacks m → offResize callback (onResize callback m) = m)
  ∧ _resizeCallbacks (offResize callback (onResize callback m)) ≡ₚ _resizeCallbacks m.
Proof.
  destruct m as [cache cur cbs tm ini]. unfold offResize, onResize. cbn.
  split; [|split].
  - intros H. by rewrite remove_first_not_in.
  - intros H. f_equal. induction cbs as [|d l IH]; cbn.
    + by rewrite Nat.eqb_refl.
    + apply not_elem_of_cons in H as [Hne Hl].
      destruct (Nat.eqb_spec d callback); [congruence|]. by rewrite IH.
  - apply remove_first_snoc.
Qed.

(** *** A settled window on any loaded page *)

Lemma remembers_debounced (w : World) : remembers w → remembers (debounced w).
Proof.
  intros H. unfold debounced. destruct (same_name _ _); [done|]. intros _. by eexists.
Qed.

Lemma remembers_advance (t : nat) (w : World) : remembers w → remembers (advance t w).
Proof.
  intros H. unfold advance.
  set (w1 := {| innerWidth := innerWidth w |}).
  assert (remembers w1) as Hw1 by exact H.
  clearbody w1. generalize (filter (λ tm : nat * nat, (tm.2 ≤ t)%nat) (timers w)).
  intros due. revert w1 Hw1. induction due as [|d due IH]; intros w1 H1; [done|].
  cbn [foldl]. by apply IH, remembers_debounced.
Qed.

Lemma remembers_handle (e : Event) (w : World) : remembers w → remembers (handle e w).
Proof.
  intros H. destruct e as [|width|c|c|itemCount|]; cbn [handle]; try done.
  - unfold init. destruct (_isInitialized _) eqn:Hini; [done|]. intros _. by eexists.
  - unfold for_range. rewrite Nat.sub_0_r. cbn [resizeListeners].
    set (w1 := {| innerWidth := width |}).
    assert (remembers w1) as Hw1 by exact H.
    clearbody w1. generalize (seq 0 (resizeListeners w)). intros l.
    revert w1 Hw1. induction l as [|i l IH]; intros w1 H1; [done|].
    cbn [foldl]. apply IH. unfold resize_listener.
    destruct (_debounceTimer (rcm w1)); exact H1.
  - unfold getResponsiveConfig. destruct (_ !! _); [destruct (same_name _ _)|];
      [done|intros _; by eexists ..].
Qed.

Lemma remembers_run (trace : list (nat * Event)) (w : World) :
  remembers w → remembers (run trace w).
Proof.
  revert w. induction trace as [|[t e] trace IH]; intros w H; [done|].
  cbn [run foldl]. apply IH. unfold step. cbn [fst snd].
  by apply remembers_handle, remembers_advance.
Qed.

(** X19.  On a page where the class is initialised and no timer is pending,
    whatever happened before: a resize followed by any number of resizes, each
    less than 300 ms after the one before, then 300 ms of silence, has every
    registered callback called once, in registration order, with the
    breakpoint of the last width, when its name differs from the remembered
    one's; otherwise nobody is called. *)
Theorem resize_burst_notifies_once (width : Q) (trace : list (nat * Event))
    (r : nat * Q) (rs : list (nat * Q)) :
  let w := run trace (initial_world width) in
  _isInitialized (rcm w) = true → timers w = [] →
  (clock w ≤ r.1)%nat → coalesced r.1 rs →
  ∃ prev, _currentBreakpoint (rcm w) = Some prev
    ∧ notified
        (run (resize_events (r :: rs) ++ [(((List.last rs r).1 + 300)%nat, Idle)]) w)
      = notified w ++
          (if bool_decide (name prev = name (getBreakpoint (List.last rs r).2))
           then []
           else (λ callback, (callback, getBreakpoint (List.last rs r).2))
                  <$> _resizeCallbacks (rcm w)).
Proof.
  intros w Hini Htm Hclock Hco.
  destruct (remembers_run trace (initial_world width)) as [prev Hprev]; [done|done|].
  fold w in Hprev. exists prev. split; [done|].
  destruct (invariant_run trace (initial_world width) (invariant_initial width))
    as (_ & Hl & _). fold w in Hl. unfold one_listener in Hl. rewrite Hini in Hl.
  by apply resize_window_notifies.
Qed.

Lemma resize_burst_notifies_once_witness :
  let w := run [(0%nat, Load); (0%nat, Subscribe 1%nat); (0%nat, Subscribe 2%nat)]
             (initial_world (inject_Z 1024)) in
  let r := (1000%nat, inject_Z 400) in
  let rs := [(1200%nat, inject_Z 600)] in
  ∃ prev, _currentBreakpoint (rcm w) = Some prev
    ∧ notified
        (run (resize_events (r :: rs) ++ [(((List.last rs r).1 + 300)%nat, Idle)]) w)
      = notified w ++
          (if bool_decide (name prev = name (getBreakpoint (List.last rs r).2))
           then []
           else (λ callback, (callback, getBreakpoint (List.last rs r).2))
                  <$> _resizeCallbacks (rcm w)).
Proof.
  intros w r rs.
  assert (_isInitialized (rcm w) = true) as Hini by (vm_compute; reflexivity).
  assert (timers w = []) as Htm by (vm_compute; reflexivity).
  assert (clock w ≤ r.1)%nat as Hclock
    by (replace (clock w) with 0%nat by (vm_compute; reflexivity); apply Nat.le_0_l).
  assert (coalesced r.1 rs) as Hco by (cbn; lia).
  exact (resize_burst_notifies_once (inject_Z 1024)
           [(0%nat, Load); (0%nat, Subscribe 1%nat); (0%nat, Subscribe 2%nat)]
           r rs Hini Htm Hclock Hco).
Defined.

End Responsive.

(** ** Layout: the items stay inside the container *)

Section ContainerFit.
Import MathUtils ResponsiveConfigManager.

(** X20.  At every window width, for every index and every item count that
    is not 0, the box of an item placed by [getItemElementPosition] under the
    responsive configuration (its anchor and [itemSize] beyond it) lies inside
    the container. *)
Theorem items_inside_container (history : list (Config.t * Call)) (width : Q)
    (itemCount index : Z) (totalItems : option Z) :
  let config := _calculateConfig (getBreakpoint width) itemCount in
  let p := (getItemElementPosition config index totalItems
              (calls history initial).2).1 in
  or_itemCount totalItems config ≠ 0 →
  (0 <= Point.x p)%R
  ∧ (Point.x p + IZR (Config.itemSize config) <= IZR (Config.containerWidth config))%R
  ∧ (0 <= Point.y p)%R
  ∧ (Point.y p + IZR (Config.itemSize config) <= IZR (Config.containerHeight config))%R.
Proof.
  intros config p _.
  destruct (calls_coherent history initial coherent_initial) as (_ & Hc).
  destruct (getItemElementPosition_coherent config index totalItems _ Hc) as (Hp & _).
  fold p in Hp. rewrite Hp. unfold anchor_point, circle_point. cbn [Point.x Point.y].
  set (theta := item_angle index (or_itemCount totalItems config)).
  pose proof (COS_bound theta) as [Hc1 Hc2]. pose proof (SIN_bound theta) as [Hs1 Hs2].
  unfold config.
  destruct (getBreakpoint_cases width) as [-> | [-> | ->]]; cbn; lra.
Qed.

(** X20 for the fourth of eight items on a window of 1024 pixels. *)
Lemma items_inside_container_witness :
  let config := _calculateConfig (getBreakpoint (inject_Z 1024)) 8 in
  let p := (getItemElementPosition config 3 None (calls [] initial).2).1 in
  (0 <= Point.x p)%R
  ∧ (Point.x p + IZR (Config.itemSize config) <= IZR (Config.containerWidth config))%R
  ∧ (0 <= Point.y p)%R
  ∧ (Point.y p + IZR (Config.itemSize config) <= IZR (Config.containerHeight config))%R.
Proof.
  intros config p.
  assert (or_itemCount None config ≠ 0) as Hcount by (cbn; lia).
  exact (items_inside_container [] (inject_Z 1024) 8 3 None Hcount).
Defined.

End ContainerFit.

(** ** PathManager: further properties *)

Section PathQueries.
Import PathManager.

(** X21.  Without an SVG element the path manager is disabled for good: whatever is
    asked of it, no line is created, nothing is drawn and the position cache
    of [MathUtils] is not touched. *)
Theorem disabled_manager_does_nothing (requests : list (Config.t * Op))
    (m : MathUtils.t) :
  run requests (start None m) = start None m.
Proof.
  unfold run. induction requests as [|[config op] requests IH]; [done|].
  cbn [foldl]. replace (perform (start None m) (config, op)) with (start None m); [done|].
  destruct op; reflexivity.
Qed.

(** X22.  Toggling an element that belongs to no line changes no line. *)
Theorem toggle_unknown_element (pathElement : PathElement) (m : t) :
  id pathElement ∉ (λ lineData, id (element lineData)) <$> connectionLines m →
  connectionLines (togglePathState pathElement m) = connectionLines m.
Proof.
  unfold togglePathState. cbn [connectionLines].
  induction (connectionLines m) as [|l lines IH]; intros Hnot; [done|].
  rewrite fmap_cons, not_elem_of_cons in Hnot. destruct Hnot as [Hne Hnot].
  cbn. destruct (Nat.eqb_spec (id (element l)) (id pathElement)); [congruence|].
  by rewrite IH.
Qed.

Lemma toggle_unknown_element_witness :
  connectionLines
    (togglePathState
       {| id := 5; d := LinearPath {| Point.x := 0; Point.y := 0 |}
                                   {| Point.x := 0; Point.y := 0 |};
          data_from := 2; data_to := 3 |}
       (manager three_lines_world))
  = connectionLines (manager three_lines_world).
Proof.
  apply toggle_unknown_element. cbn. rewrite !not_elem_of_cons.
  repeat split; try lia. apply not_elem_of_nil.
Defined.

(** X23.  [resetAllPaths] on an enabled manager puts every line in the TRANSPARENT
    state and keeps the lines, their elements and their ends as they were, so
    that a toggle of any line then leads to PINK_SOLID; on a disabled manager
    it changes nothing. *)
Theorem resetAllPaths_resets (m : t) :
  (isEnabled m = true →
   Forall (λ lineData, state lineData = PATH_STATES.TRANSPARENT
                       ∧ next_state (state lineData) = PATH_STATES.PINK_SOLID)
     (connectionLines (resetAllPaths m))
   ∧ element <$> connectionLines (resetAllPaths m) = element <$> connectionLines m
   ∧ key <$> connectionLines (resetAllPaths m) = key <$> connectionLines m
   ∧ connectionSvg (resetAllPaths m) = connectionSvg m)
  ∧ (isEnabled m = false → resetAllPaths m = m).
Proof.
  unfold resetAllPaths. split; intros ->; cbn [negb]; [|done].
  cbn [connectionLines connectionSvg]. rewrite <- !list_fmap_compose.
  split; [|done]. apply Forall_fmap, Forall_forall. intros l _. by cbn.
Qed.

(** *** The SVG holds the elements of the lines *)

Lemma createConnectionLines_children (config : Config.t)
    (connections : list GraphManager.Connection) :
  ∀ (w : World) (children : list PathElement),
    isEnabled (manager w) = true → connectionSvg (manager w) = Some children →
    ∃ news,
      connectionLines (manager (createConnectionLines config connections w))
        = connectionLines (manager w) ++ news
      ∧ connectionSvg (manager (createConnectionLines config connections w))
        = Some (children ++ (element <$> news))
      ∧ isEnabled (manager (createConnectionLines config connections w)) = true
      ∧ Forall2 (made_for config) connections news.
Proof.
  induction connections as [|[i j] cs IH]; intros w children Hen Hsvg.
  - exists []. rewrite createConnectionLines_foldl by done. cbn.
    by rewrite !app_nil_r, Hsvg.
  - rewrite createConnectionLines_foldl by done.
    cbn [foldl GraphManager.from GraphManager.to].
    destruct (createSingleLine_spec config i j w children Hen Hsvg)
      as (l & Hl & Hmade & _ & _ & Hen' & Hsvg').
    destruct (IH _ _ Hen' Hsvg') as (news & Hn & Hch & Hen2 & Hall).
    rewrite createConnectionLines_foldl in Hn, Hch, Hen2 by done.
    exists (l :: news). rewrite Hn, Hl, Hch, <- !app_assoc. by repeat split; [|constructor].
Qed.

Lemma filter_own_ids (lines : list LineData) :
  filter (λ e, id e ∉ (λ lineData, id (element lineData)) <$> lines)
    (element <$> lines) = [].
Proof.
  assert (∀ (ids : list nat) (ls : list LineData),
            (∀ l, l ∈ ls → id (element l) ∈ ids) →
            filter (λ e, id e ∉ ids) (element <$> ls) = []) as H.
  { intros ids ls. induction ls as [|l ls IH]; intros Hin; [done|].
    rewrite fmap_cons, filter_cons.
    destruct (decide (id (element l) ∉ ids)) as [Hn|_].
    - destruct Hn. apply Hin. by left.
    - apply IH. intros; apply Hin. by right. }
  apply H. intros l Hl. apply list_elem_of_fmap. eauto.
Qed.

Lemma in_sync_rebuild (config : Config.t) (w : World) :
  in_sync w → in_sync (_rebuildAllPaths config w).
Proof.
  intros [Hen Hsvg]. unfold _rebuildAllPaths. rewrite Hen. cbn [negb].
  set (w1 := {| math := math w; created := created w;
                manager := clearConnections (manager w) |}).
  destruct (createConnectionLines_children config
              (complete_connections (Config.itemCount config)) w1 []) as
    (news & Hn & Hch & Hen2 & _).
  { done. }
  { cbn. rewrite Hsvg. cbn. by rewrite filter_own_ids. }
  unfold in_sync. cbn [manager isEnabled connectionSvg connectionLines].
  split; [done|]. rewrite Hch, Hn. cbn [w1 manager clearConnections connectionLines app].
  f_equal. rewrite <- list_fmap_compose. apply list_fmap_ext. intros _ l _.
  cbn. unfold restore_state. by destruct (currentStates _ !! _).
Qed.

(** X24.  In every state reached from a new path manager given an empty SVG, the
    children of the SVG are exactly the elements of the current lines, in the
    order of the lines. *)
Theorem svg_children_are_line_elements (requests : list (Config.t * Op))
    (m : MathUtils.t) :
  connectionSvg (manager (run requests (start (Some []) m)))
  = Some (element <$> connectionLines (manager (run requests (start (Some []) m)))).
Proof.
  assert (in_sync (start (Some []) m)) as H0 by done.
  enough (in_sync (run requests (start (Some []) m))) as [_ H] by done.
  revert H0. unfold run. generalize (start (Some []) m).
  induction requests as [|[config op] requests IH]; intros w Hw; [done|].
  cbn [foldl]. apply IH. unfold perform. cbn [fst snd].
  destruct op as [cs|pathElement| | |].
  - destruct Hw as [Hen Hsvg].
    destruct (createConnectionLines_children config cs w _ Hen Hsvg)
      as (news & Hn & Hch & Hen2 & _).
    split; [done|]. by rewrite Hch, Hn, fmap_app.
  - destruct Hw as [Hen Hsvg]. split; [done|]. cbn. rewrite Hsvg. f_equal.
    generalize (connectionLines (manager w)). intros ls.
    induction ls as [|l ls IHl]; [done|].
    cbn. destruct (Nat.eqb _ _); cbn; [done | by rewrite IHl].
  - destruct Hw as [Hen Hsvg]. unfold resetAllPaths. rewrite Hen. cbn [negb].
    split; [done|]. cbn. rewrite Hsvg. f_equal.
    rewrite <- list_fmap_compose. by apply list_fmap_ext.
  - by apply in_sync_rebuild.
  - destruct Hw as [Hen Hsvg]. split; [done|]. cbn. rewrite Hsvg. cbn.
    by rewrite filter_own_ids.
Qed.

(** *** Rebuilding twice *)

Lemma currentStates_NoDup (lines : list LineData) (l : LineData) :
  NoDup (key <$> lines) → l ∈ lines →
  currentStates lines !! key l = Some (state l).
Proof.
  intros Hnd Hin. apply list_elem_of_split in Hin as (before & after & ->).
  apply currentStates_last. intros x Hx Heq.
  rewrite fmap_app, fmap_cons in Hnd.
  apply NoDup_app in Hnd as (_ & _ & Hnd). apply NoDup_cons in Hnd as [Hnot _].
  apply Hnot. unfold key. rewrite <- Heq. apply list_elem_of_fmap. eauto.
Qed.

Lemma restored_new (states : gmap (Z * Z) Z) (news : list LineData) :
  Forall (λ l, state l = PATH_STATES.TRANSPARENT) news →
  (λ l, (key l, state l)) <$> (restore_state states <$> news)
  = restored states <$> (key <$> news).
Proof.
  intros Htr. rewrite <- !list_fmap_compose. apply Forall_fmap_ext.
  eapply Forall_impl; [exact Htr|]. intros l Hl. cbn.
  unfold restored, restore_state, key.
  destruct (states !! (from l, to l)); cbn; [done | by rewrite Hl].
Qed.

(** X25.  Rebuilding a second time under the same configuration gives lines with
    the same ends and the same states as the first rebuild did. *)
Theorem rebuild_twice (config : Config.t) (w : World) (children : list PathElement) :
  isEnabled (manager w) = true → connectionSvg (manager w) = Some children →
  (λ l, (key l, state l))
    <$> connectionLines (manager (_rebuildAllPaths config (_rebuildAllPaths config w)))
  = (λ l, (key l, state l))
    <$> connectionLines (manager (_rebuildAllPaths config w)).
Proof.
  intros Hen Hsvg.
  destruct (rebuild_lines config w children Hen Hsvg) as (news1 & Hl1 & Hall1).
  destruct (made_for_keys _ _ _ Hall1) as (Hk1 & Htr1).
  assert (isEnabled (manager (_rebuildAllPaths config w)) = true
          ∧ is_Some (connectionSvg (manager (_rebuildAllPaths config w)))) as [Hen1 [ch1 Hsvg1]].
  { unfold _rebuildAllPaths. rewrite Hen. cbn [negb manager isEnabled connectionSvg].
    destruct (createConnectionLines_spec config
                (complete_connections (Config.itemCount config))
                {| math := math w; created := created w;
                   manager := clearConnections (manager w) |}
                (filter (λ e, id e ∉ (λ lineData, id (element lineData))
                                       <$> connectionLines (manager w)) children))
      as (_ & _ & _ & _ & _ & H1 & H2); [done | by cbn; rewrite Hsvg | done]. }
  destruct (rebuild_lines config _ ch1 Hen1 Hsvg1) as (news2 & Hl2 & Hall2).
  destruct (made_for_keys _ _ _ Hall2) as (Hk2 & Htr2).
  set (lines1 := connectionLines (manager (_rebuildAllPaths config w))) in *.
  rewrite Hl2, (restored_new _ _ Htr2), Hk2.
  assert (key <$> lines1
          = (λ c, (GraphManager.from c, GraphManager.to c))
              <$> complete_connections (Config.itemCount config)) as Hkeys1.
  { rewrite Hl1, <- Hk1, <- list_fmap_compose. apply list_fmap_ext. intros _ l _.
    apply key_restore_state. }
  rewrite <- Hkeys1, <- list_fmap_compose. symmetry.
  apply Forall_fmap_ext, Forall_forall. intros l Hl. cbn. unfold restored.
  rewrite currentStates_NoDup; [done| |done].
  rewrite Hkeys1. apply NoDup_keys_complete.
Qed.

Lemma rebuild_twice_witness :
  (λ l, (key l, state l))
    <$> connectionLines
          (manager (_rebuildAllPaths four_items_config
                      (_rebuildAllPaths four_items_config three_lines_world)))
  = (λ l, (key l, state l))
    <$> connectionLines (manager (_rebuildAllPaths four_items_config three_lines_world)).
Proof.
  apply (rebuild_twice four_items_config three_lines_world
           (element <$> connectionLines (manager three_lines_world)));
    reflexivity.
Defined.

(** *** The lines of one item *)

Lemma item_pairs (n i : nat) :
  (i < n)%nat →
  filter (λ p : nat * nat, p.1 = i ∨ p.2 = i) (GraphManager.upper_pairs n)
  ≡ₚ ((λ j, (j, i)) <$> seq 0 i) ++ ((λ j, (i, j)) <$> seq (S i) (n - S i)).
Proof.
  intros Hi. apply NoDup_Permutation.
  - apply NoDup_filter, NoDup_upper_pairs.
  - apply NoDup_app. split; [|split].
    + apply NoDup_fmap_2; [|apply NoDup_seq]. by intros a b [= ->].
    + intros [a b] Ha Hb.
      apply list_elem_of_fmap in Ha as (j & [= -> ->] & Hj).
      apply list_elem_of_fmap in Hb as (j' & [= -> ->] & Hj').
      apply elem_of_seq in Hj, Hj'. lia.
    + apply NoDup_fmap_2; [|apply NoDup_seq]. by intros a b [= ->].
  - intros [a b]. rewrite list_elem_of_filter, elem_of_upper_pairs, elem_of_app,
      !list_elem_of_fmap. cbn. split.
    + intros ([-> | ->] & Hab).
      * right. exists b. split; [done|]. apply elem_of_seq. lia.
      * left. exists a. split; [done|]. apply elem_of_seq. lia.
    + intros [(j & [= -> ->] & Hj)|(j & [= -> ->] & Hj)];
        apply elem_of_seq in Hj; split; (by left) || (by right) || lia.
Qed.

(** X26.  Once the lines of the complete graph over [n] items are drawn, every item
    has [n - 1] of them, the ones [getItemConnections] (and the hover
    highlight, which selects them the same way) returns; an index that is not
    an item has none. *)
Theorem item_has_n_minus_1_lines (config : Config.t) (w : World)
    (children : list PathElement) (n : nat) (i : Z) :
  isEnabled (manager w) = true → connectionSvg (manager w) = Some children →
  connectionLines (manager w) = [] →
  let w' := createConnectionLines config
              (GraphManager.getConnections (GraphManager.build n)) w in
  getConnectionCount (manager w') = (n * (n - 1) / 2)%nat
  ∧ (0 ≤ i < Z.of_nat n → length (getItemConnections i (manager w')) = (n - 1)%nat)
  ∧ (¬ (0 ≤ i < Z.of_nat n) → getItemConnections i (manager w') = []).
Proof.
  intros Hen Hsvg Hnil w'. unfold w', getConnectionCount, getItemConnections.
  rewrite getConnections_build.
  destruct (createConnectionLines_spec config
              (GraphManager.connection_of <$> GraphManager.upper_pairs n) w children
              Hen Hsvg) as (news & Hn & Hall & _).
  rewrite Hnil, app_nil_l in Hn. rewrite Hn.
  assert (length (filter (λ l, from l = i ∨ to l = i) news)
          = length (filter (λ p : nat * nat, Z.of_nat p.1 = i ∨ Z.of_nat p.2 = i)
                      (GraphManager.upper_pairs n))) as Hcount.
  { symmetry.
    rewrite <- (length_fmap GraphManager.connection_of (filter _ _)).
    transitivity (length (filter (λ c, GraphManager.from c = i ∨ GraphManager.to c = i)
                            (GraphManager.connection_of <$> GraphManager.upper_pairs n))).
    - f_equal. generalize (GraphManager.upper_pairs n). intros l.
      induction l as [|p l IH]; [done|].
      rewrite fmap_cons, !filter_cons. cbn.
      destruct (decide (Z.of_nat p.1 = i ∨ Z.of_nat p.2 = i)); by rewrite <- IH.
    - apply (length_filter_Forall2 _ _ _ _ _ Hall).
      intros c l (Hf & Ht & _). by rewrite Hf, Ht. }
  split; [|split].
  - rewrite <- (Forall2_length _ _ _ Hall), length_fmap. apply length_upper_pairs.
  - intros Hi. rewrite Hcount.
    transitivity (length (filter (λ p : nat * nat, p.1 = Z.to_nat i ∨ p.2 = Z.to_nat i)
                            (GraphManager.upper_pairs n))).
    { f_equal. apply list_filter_iff. intros [a b]. cbn. lia. }
    rewrite (Permutation_length (item_pairs n (Z.to_nat i) ltac:(lia))).
    rewrite length_app, !length_fmap, !length_seq. lia.
  - intros Hi. apply length_zero_iff_nil. rewrite Hcount.
    apply length_zero_iff_nil.
    assert (∀ a b, (a, b) ∈ GraphManager.upper_pairs n → (a < b < n)%nat) as Hl
      by (intros a b; apply elem_of_upper_pairs).
    revert Hl. generalize (GraphManager.upper_pairs n).
    intros l Hl. induction l as [|[a b] l IH]; [done|].
    rewrite filter_cons. cbn.
    assert (a < b < n)%nat as Hab by (apply Hl; left).
    destruct (decide (Z.of_nat a = i ∨ Z.of_nat b = i)) as [Hd|_]; [lia|].
    apply IH. intros x y Hin. apply Hl. by right.
Qed.

Lemma item_has_n_minus_1_lines_witness :
  let w' := createConnectionLines four_items_config
              (GraphManager.getConnections (GraphManager.build 4))
              (start (Some []) MathUtils.initial) in
  getConnectionCount (manager w') = (4 * (4 - 1) / 2)%nat
  ∧ (0 ≤ 2 < Z.of_nat 4 → length (getItemConnections 2 (manager w')) = (4 - 1)%nat)
  ∧ (¬ (0 ≤ 2 < Z.of_nat 4) → getItemConnections 2 (manager w') = []).
Proof.
  exact (item_has_n_minus_1_lines four_items_config
           (start (Some []) MathUtils.initial) [] 4 2 eq_refl eq_refl eq_refl).
Defined.

End PathQueries.

(** ** GSAPGalleryViewer: when the gallery is rebuilt *)

Section Viewer.
Import ResponsiveConfigManager GSAPGalleryViewer.

(** X27.  Between the configurations of two window widths, the gallery is updated
    in place (no rebuild) exactly when the two widths have the same breakpoint
    and the item count does not change: every change of breakpoint rebuilds
    the gallery. *)
Theorem needsRebuild_iff_breakpoint_changes (oldWidth newWidth : Q)
    (oldCount newCount galleryItems itemCount : Z) :
  needsRebuild
    (Some (_calculateConfig (getBreakpoint oldWidth) oldCount)) galleryItems itemCount
    (_calculateConfig (getBreakpoint newWidth) newCount) = false
  ↔ name (getBreakpoint oldWidth) = name (getBreakpoint newWidth)
    ∧ Z.min galleryItems newCount = itemCount.
Proof.
  unfold needsRebuild. cbn [Config.itemCount Config.containerWidth
                              Config.containerHeight _calculateConfig].
  destruct (Z.eqb_spec (Z.min galleryItems newCount) itemCount) as [Hc|Hc]; cbn [negb].
  - destruct (getBreakpoint_cases oldWidth) as [-> | [-> | ->]];
      destruct (getBreakpoint_cases newWidth) as [-> | [-> | ->]]; cbn; naive_solver.
  - naive_solver.
Qed.

End Viewer.
